(** * Event check-in: data sources, normalizers and the check-in toggle

    A shallow embedding of the data-source layer of the event check-in
    application (data-sources.js, the Google Sheets integration of config.js
    and the check-in toggle of the check-in interface plan), with the
    properties its specification states about them.

    Conventions of the embedding.
    - A JavaScript primitive value is a [JS.value]; numbers are the
      integer-valued ones, strings are sequences of one-byte characters, so
      whitespace and letter case are the ASCII ones.
    - A JavaScript object with a fixed set of properties is a record whose
      fields are [JS.value]s; an absent property reads as [VUndef].
    - An array is a [list]; [a[i]] out of range reads as [VUndef].
    - A promise is modelled by how it settles: [Fulfilled v] or
      [Rejected msg], where [msg] is the message of what was thrown; the
      kind of the error object is not modelled. *)

From Stdlib Require Import ZArith Ascii String.
From stdpp Require Import base list strings pretty gmap.

Open Scope string_scope.

(** ** JavaScript values and the string primitives the sources use *)

Module JS.

Inductive value : Type :=
  | VUndef
  | VNull
  | VBool (b : bool)
  | VNum (n : Z)
  | VStr (s : string).

#[global] Instance value_eq_dec : EqDecision value.
Proof. solve_decision. Defined.

#[global] Instance value_inhabited : Inhabited value := populate VUndef.

(** ToBoolean. *)
Definition truthy (v : value) : bool :=
  match v with
  | VUndef | VNull => false
  | VBool b => b
  | VNum n => negb (n =? 0)%Z
  | VStr s => negb (bool_decide (s = ""))
  end.

(** [a || b]. *)
Definition or_else (a b : value) : value := if truthy a then a else b.

(** [a === b] on primitives. *)
Definition strict_eq (a b : value) : bool := bool_decide (a = b).

(** [String(v)], which is also [v.toString()] wherever the latter does not
    throw (it throws on [undefined] and [null]). *)
Definition toString (v : value) : string :=
  match v with
  | VUndef => "undefined"
  | VNull => "null"
  | VBool true => "true"
  | VBool false => "false"
  | VNum n => pretty n
  | VStr s => s
  end.

(** [a[i]] on an array. *)
Definition get {A} `{Inhabited A} (a : list A) (i : nat) : A :=
  default inhabitant (a !! i).

(** [s.trimStart()], [s.trim()]. *)
Fixpoint trimStart (s : string) : string :=
  match s with
  | EmptyString => EmptyString
  | String c r => if Ascii.is_space c then trimStart r else s
  end.

Definition trim (s : string) : string :=
  String.rev (trimStart (String.rev (trimStart s))).

(** [s.split(sep)] for a one-character separator. *)
Fixpoint split (sep : ascii) (s : string) : list string :=
  match s with
  | EmptyString => [EmptyString]
  | String c r =>
      if bool_decide (c = sep) then EmptyString :: split sep r
      else match split sep r with
           | h :: t => String c h :: t
           | [] => [String c EmptyString]
           end
  end.

(** The line feed, and a text made of the given lines. *)
Definition newline : string := String "010"%char EmptyString.

Fixpoint unlines (lines : list string) : string :=
  match lines with
  | [] => EmptyString
  | [line] => line
  | line :: rest => line +:+ newline +:+ unlines rest
  end.

(** [s.replace(/\s+/g, '_')]: every maximal run of whitespace becomes one
    underscore. [in_run] tells that the previous character was whitespace. *)
Fixpoint replace_ws_go (in_run : bool) (s : string) : string :=
  match s with
  | EmptyString => EmptyString
  | String c r =>
      if Ascii.is_space c
      then (if in_run then replace_ws_go true r
            else String "_" (replace_ws_go true r))
      else String c (replace_ws_go false r)
  end.

Definition replace_ws (s : string) : string := replace_ws_go false s.

(** [s.toLowerCase()]. *)
Definition lower_char (c : ascii) : ascii :=
  let n := nat_of_ascii c in
  if (65 <=? n)%nat && (n <=? 90)%nat then ascii_of_nat (n + 32) else c.

Fixpoint toLowerCase (s : string) : string :=
  match s with
  | EmptyString => EmptyString
  | String c r => String (lower_char c) (toLowerCase r)
  end.

(** A string used as a condition, and [a || b] on strings. *)
Definition nonempty (s : string) : bool := negb (bool_decide (s = "")).

Definition str_or (a b : string) : string := if nonempty a then a else b.

(** How a promise settles. *)
Inductive outcome (A : Type) : Type :=
  | Fulfilled (v : A)
  | Rejected (msg : string).
#[global] Arguments Fulfilled {A} v.
#[global] Arguments Rejected {A} msg.

End JS.

Import JS.

(** ** The attendee record *)

Record Attendee : Type := mkAttendee {
  id : value;
  tableNumber : value;
  groupName : value;
  attendeeName : value;
  ticketType : value;
  email : value;
  additionalInfo : value;
  status : value;
  checkedInAt : value;
  rowIndex : value
}.

#[global] Instance Attendee_eq_dec : EqDecision Attendee.
Proof. solve_decision. Defined.

Abbreviation roster := (list Attendee).

Definition pending : value := VStr "pending".
Definition checked_in : value := VStr "checked-in".


(** [(v || '').toString().trim()], the way every normalizer reads a text
    field, and [(row[i] || '').toString().trim()] for a column of a row. *)
Definition text (v : value) : string :=
  trim (toString (or_else v (VStr ""))).

Definition column (row : list value) (i : nat) : string :=
  text (get row i).

(** A fetched HTTP response: [ok] is the fetch API's [response.ok]; [body] is
    how [response.json()] or [response.text()] settles. A fetch that fails
    before any response arrives is a [Rejected] outcome of the fetch itself. *)
Record Response (A : Type) : Type := mkResponse {
  http_status : nat;
  statusText : string;
  body : outcome A
}.
#[global] Arguments mkResponse {A} _ _ _.
#[global] Arguments http_status {A} _.
#[global] Arguments statusText {A} _.
#[global] Arguments body {A} _.

Definition ok {A} (r : Response A) : bool :=
  (200 <=? http_status r)%nat && (http_status r <=? 299)%nat.

(** The request failed: the fetch itself did, or the status is not an ok
    one, or the body could not be read. *)
Definition requestFailed {A} (r : outcome (Response A)) : bool :=
  match r with
  | Rejected _ => true
  | Fulfilled response =>
      negb (ok response)
      || match body response with Rejected _ => true | Fulfilled _ => false end
  end.

(** One entry of the check-in map served by [?action=getcheckins]. *)
Record CheckinEntry : Type := mkCheckinEntry {
  entry_status : value;
  entry_checkedInAt : value
}.

(** What the overlay reads of the parsed body of the check-in response,
    through [checkinData[key]], [.status] and [.checkedInAt]. [entries] are
    the properties of the parsed value that are objects, each with the
    status and the check-in time read from it. [others] are the names of
    every other truthy property the value has, its own or one it inherits:
    such a property passes the test of the overlay and has neither a
    [status] nor a [checkedInAt]. An entry hides another property of the
    same name. *)
Record CheckinData : Type := mkCheckinData {
  entries : gmap string CheckinEntry;
  others : gset string
}.

(** The properties every object inherits from [Object.prototype]: a
    function each, or the prototype itself for [__proto__]. *)
Definition objectPrototype : list string :=
  [ "constructor"; "__defineGetter__"; "__defineSetter__"; "hasOwnProperty";
    "__lookupGetter__"; "__lookupSetter__"; "isPrototypeOf";
    "propertyIsEnumerable"; "toString"; "valueOf"; "__proto__";
    "toLocaleString" ].


(** A JSON object whose own properties are the given entries, the shape in
    which the check-in handler stores the check-ins: [JSON.parse] gives it
    [Object.prototype] as its prototype. (An array, which the handler
    answers when there is no check-in, has the methods of arrays among its
    [others] as well.) *)
Definition jsonObject (own : gmap string CheckinEntry) : CheckinData :=
  mkCheckinData own (list_to_set objectPrototype).

(** The overlay both file-based adapters apply:
    [normalizedData.map(attendee => checkinData[attendee.id] ? {...attendee,
    status, checkedInAt} : attendee)]. The property key is [String(id)]. A
    record whose id names a property that is no entry passes the test too,
    and takes the [undefined] status and check-in time of what was
    found. *)
Definition applyCheckin (checkinData : CheckinData)
    (attendee : Attendee) : Attendee :=
  match entries checkinData !! toString (id attendee) with
  | Some entry =>
      mkAttendee (id attendee) (tableNumber attendee) (groupName attendee)
        (attendeeName attendee) (ticketType attendee) (email attendee)
        (additionalInfo attendee)
        (entry_status entry) (entry_checkedInAt entry) (rowIndex attendee)
  | None =>
      if bool_decide (toString (id attendee) ∈ others checkinData) then
        mkAttendee (id attendee) (tableNumber attendee) (groupName attendee)
          (attendeeName attendee) (ticketType attendee) (email attendee)
          (additionalInfo attendee) VUndef VUndef (rowIndex attendee)
      else attendee
  end.

Definition applyCheckins (checkinData : CheckinData)
    (normalizedData : roster) : roster :=
  applyCheckin checkinData <$> normalizedData.

(** The nested [try] of both [loadData]s around the check-in fetch: the
    overlay is applied when the fetch succeeds with an ok response whose JSON
    parses, and the plain normalized data is returned in every other case.
    A body that parses to [null], on which the lookup of the overlay throws
    inside the same [try], is a [Rejected] body here. *)
Definition withCheckins
    (checkins : outcome (Response CheckinData))
    (normalizedData : roster) : roster :=
  match checkins with
  | Fulfilled checkinResponse =>
      if ok checkinResponse then
        match body checkinResponse with
        | Fulfilled checkinData => applyCheckins checkinData normalizedData
        | Rejected _ => normalizedData
        end
      else normalizedData
  | Rejected _ => normalizedData
  end.

(** What [?action=checkin] answers. *)
Record UpdateResult : Type := mkUpdateResult { success : value }.

(** The injected email validator, [window.EmailValidator.validate]. *)
Record Validation : Type := mkValidation {
  valid : bool;
  sanitized : string
}.

(** ** GoogleSheetsDataSource (data-sources.js) *)

Module GoogleSheetsDataSource.

(** The inner loop of [parseCsvData]: one pass over the characters of a line
    with the three loop variables [values], [currentValue], [inQuotes]; when
    the line ends the last value is pushed. *)
Fixpoint parseLine_go (line : string) (values : list string)
    (currentValue : string) (inQuotes : bool) : list string :=
  match line with
  | EmptyString => values ++ [trim currentValue]
  | String char rest =>
      if bool_decide (char = "034"%char) then
        parseLine_go rest values currentValue (negb inQuotes)
      else if bool_decide (char = ","%char) && negb inQuotes then
        parseLine_go rest (values ++ [trim currentValue]) "" inQuotes
      else
        parseLine_go rest values (currentValue +:+ String char "") inQuotes
  end.

Definition parseLine (line : string) : list string :=
  parseLine_go line [] "" false.

(** [values.filter(v => v)]. *)
Definition nonEmptyValues (values : list string) : list string :=
  filter (λ v, nonempty v = true) values.

(** The test that lets a parsed line into [data]: at least three values
    that are not empty. *)
Definition admitted (values : list string) : Prop :=
  (3 ≤ length (nonEmptyValues values))%nat.

#[global] Instance admitted_dec values : Decision (admitted values).
Proof. unfold admitted. apply _. Defined.

(** The body of the [for] loop, from [i = 1] on: [lines] is what is left to
    visit, the result is what the loop pushes onto [data]. *)
Fixpoint parseRows (lines : list string) : list (list string) :=
  match lines with
  | [] => []
  | line :: rest =>
      if negb (nonempty (trim line)) then parseRows rest
      else
        let values := parseLine line in
        if (3 <=? length (nonEmptyValues values))%nat
        then values :: parseRows rest
        else parseRows rest
  end.

(** [csvText.split('\n').filter(line => line.trim())]. *)
Definition nonBlankLines (csvText : string) : list string :=
  filter (λ line, nonempty (trim line) = true) (split "010"%char csvText).

Definition parseCsvData (csvText : string) : list (list string) :=
  let lines := nonBlankLines csvText in
  if (length lines <? 2)%nat then []
  else parseRows (drop 1 lines).

(** The id of a sheet row: [fullName ? `gsheet_${fullName.replace(/\s+/g,
    '_').toLowerCase()}_${index}` : `gsheet_${index}`]. *)
Definition normalizedName (fullName : string) : string :=
  toLowerCase (replace_ws fullName).

Definition rowId (fullName : string) (index : nat) : string :=
  if nonempty fullName
  then "gsheet_" +:+ normalizedName fullName +:+ "_" +:+ pretty index
  else "gsheet_" +:+ pretty index.

(** The normalized name of a sheet row: column 2 trimmed, whitespace runs
    turned into underscores, lowercased. *)
Definition nameKey (row : list value) : string :=
  normalizedName (column row 2).

Section Normalize.

(** [window.EmailValidator], when the page loaded it. *)
Variable EmailValidator : option (string → Validation).

Definition validatedEmail (email : string) : string :=
  match EmailValidator with
  | Some validate =>
      if nonempty email then
        let result := validate email in
        if valid result then sanitized result else ""
      else ""
  | None => ""
  end.

(** The callback of [data.map] in [normalizeAttendeeData]. *)
Definition normalizeRow (row : list value) (index : nat) : Attendee :=
  let tableNumber := str_or (column row 0) "General" in
  let groupName := str_or (column row 1) "" in
  let fullName := str_or (column row 2) "" in
  let ticketType := str_or (column row 3) "" in
  let email := str_or (column row 4) "" in
  let additionalInfo := str_or (column row 5) "" in
  {| id := VStr (rowId fullName index);
     tableNumber := VStr tableNumber;
     groupName := VStr (str_or (str_or groupName ticketType) "General");
     attendeeName := VStr fullName;
     ticketType := VStr ticketType;
     email := VStr (validatedEmail email);
     additionalInfo := VStr additionalInfo;
     status := pending;
     checkedInAt := VNull;
     rowIndex := VNum (Z.of_nat index + 2) |}.

(** [data.map(...).filter(attendee => attendee.attendeeName)]. *)
Definition normalizeAttendeeData (data : list (list value)) : roster :=
  filter (λ attendee, truthy (attendeeName attendee) = true)
    (imap (λ index row, normalizeRow row index) data).

(** [loadData]. [sheetUrl] is [this.settings.sheetUrl], [sheet] how the
    fetch of the export URL settles, [checkins] how the fetch of the
    check-in map does. Building the export URL never throws and only decides
    what is fetched. Every failure of the outer [try] is rethrown. *)
Definition loadData (sheetUrl : string)
    (sheet : outcome (Response string))
    (checkins : outcome (Response CheckinData))
    : outcome roster :=
  if negb (nonempty sheetUrl) then
    Rejected "Google Sheets URL not configured"
  else
    match sheet with
    | Rejected error => Rejected error
    | Fulfilled response =>
        if negb (ok response) then
          Rejected ("HTTP " +:+ pretty (http_status response) +:+ ": "
                    +:+ statusText response)
        else
          match body response with
          | Rejected error => Rejected error
          | Fulfilled csvText =>
              let data := parseCsvData csvText in
              let normalizedData :=
                normalizeAttendeeData (map (map VStr) data) in
              Fulfilled (withCheckins checkins normalizedData)
          end
    end.

End Normalize.

(** [updateAttendee]. [post] is how the POST to [?action=checkin] settles;
    the [catch] logs and rethrows. *)
Definition updateAttendee (post : outcome (Response UpdateResult))
    : outcome UpdateResult :=
  match post with
  | Rejected error => Rejected error
  | Fulfilled response =>
      if negb (ok response) then
        Rejected ("Server error: " +:+ pretty (http_status response))
      else
        match body response with
        | Rejected error => Rejected error
        | Fulfilled result => Fulfilled result
        end
  end.

End GoogleSheetsDataSource.

(** ** CSVDataSource (data-sources.js) *)

Module CSVDataSource.

(** A row of the JSON array served by [?action=get]. *)
Record RawAttendee : Type := mkRaw {
  raw_id : value;
  raw_tableNumber : value;
  raw_groupName : value;
  raw_attendeeName : value;
  raw_ticketType : value;
  raw_email : value;
  raw_additionalInfo : value;
  raw_mealChoice : value;
  raw_status : value;
  raw_checkedInAt : value;
  raw_rowIndex : value
}.

(** The callback of [data.map] in [normalizeAttendeeData]. *)
Definition normalizeAttendee (attendee : RawAttendee) (index : nat) : Attendee :=
  {| id := or_else (raw_id attendee) (VStr ("csv_" +:+ pretty index));
     tableNumber := or_else (raw_tableNumber attendee) (VStr "General");
     groupName := or_else (raw_groupName attendee) (VStr "");
     attendeeName := or_else (raw_attendeeName attendee) (VStr "");
     ticketType := or_else (raw_ticketType attendee) (VStr "");
     email := or_else (raw_email attendee) (VStr "");
     additionalInfo :=
       or_else (or_else (raw_additionalInfo attendee) (raw_mealChoice attendee))
         (VStr "");
     status := or_else (raw_status attendee) pending;
     checkedInAt := or_else (raw_checkedInAt attendee) VNull;
     rowIndex := or_else (raw_rowIndex attendee) (VNum (Z.of_nat index + 2)) |}.

Definition normalizeAttendeeData (data : list RawAttendee) : roster :=
  imap (λ index attendee, normalizeAttendee attendee index) data.

(** A row that brings no id of its own. *)
Definition noId (attendee : RawAttendee) : Prop :=
  truthy (raw_id attendee) = false.

(** [loadData]. [rows] is how [fetch(pollUrl)] settles, [checkins] how the
    fetch of the check-in map does. A body that parses but is not an array of
    objects makes [normalizeAttendeeData] throw inside the same [try]; it is
    a [Rejected] body here. Every failure of the outer [try] is caught and
    answered with the empty array. *)
Definition loadData
    (rows : outcome (Response (list RawAttendee)))
    (checkins : outcome (Response CheckinData))
    : outcome roster :=
  match rows with
  | Rejected _ => Fulfilled []
  | Fulfilled response =>
      if negb (ok response) then Fulfilled []
      else
        match body response with
        | Rejected _ => Fulfilled []
        | Fulfilled data =>
            Fulfilled (withCheckins checkins (normalizeAttendeeData data))
        end
  end.

(** [updateAttendee]. [post] is how the POST to [?action=checkin] settles.
    The [catch] answers every failure with [{ success: true }]. *)
Definition updateAttendee (post : outcome (Response UpdateResult))
    : outcome UpdateResult :=
  match post with
  | Rejected _ => Fulfilled (mkUpdateResult (VBool true))
  | Fulfilled response =>
      if negb (ok response) then Fulfilled (mkUpdateResult (VBool true))
      else
        match body response with
        | Rejected _ => Fulfilled (mkUpdateResult (VBool true))
        | Fulfilled result => Fulfilled result
        end
  end.

End CSVDataSource.

(** ** SupabaseDataSource (data-sources.js) *)

Module SupabaseDataSource.

(** A row of the attendees table, as the database client returns it. *)
Record Row : Type := mkRow {
  row_id : value;
  table_number : value;
  group_name : value;
  attendee_name : value;
  ticket_type : value;
  row_email : value;
  additional_info : value;
  meal_choice : value;
  row_status : value;
  checked_in_at : value;
  row_index : value
}.

(** The callback of [data.map] in [normalizeAttendeeData]. *)
Definition normalizeRow (row : Row) : Attendee :=
  {| id := row_id row;
     tableNumber := VStr (text (table_number row));
     groupName := VStr (text (group_name row));
     attendeeName := VStr (text (attendee_name row));
     ticketType := VStr (text (ticket_type row));
     email := VStr (text (row_email row));
     additionalInfo :=
       VStr (text (or_else (additional_info row) (meal_choice row)));
     status := or_else (row_status row) pending;
     checkedInAt := checked_in_at row;
     rowIndex := row_index row |}.

Definition normalizeAttendeeData (data : list Row) : roster :=
  normalizeRow <$> data.

(** What a query answers: [{ data, error }]. *)
Record QueryResult (A : Type) : Type := mkQueryResult {
  qdata : option A;
  qerror : option string
}.
#[global] Arguments mkQueryResult {A} _ _.
#[global] Arguments qdata {A} _.
#[global] Arguments qerror {A} _.

(** The query failed: the call itself did, or it reports an error. *)
Definition queryFailed {A} (q : outcome (QueryResult A)) : bool :=
  match q with
  | Rejected _ => true
  | Fulfilled result => bool_decide (is_Some (qerror result))
  end.

(** [loadData]. [configured] tells that the constructor made a client (both
    [settings.url] and [settings.anonKey] set); [query] is how the select
    settles. A [null] data without an error makes [data.map] throw. *)
Definition loadData (configured : bool)
    (query : outcome (QueryResult (list Row))) : outcome roster :=
  if negb configured then
    Rejected "Supabase not configured. Please provide URL and API key."
  else
    match query with
    | Rejected error => Rejected error
    | Fulfilled result =>
        match qerror result with
        | Some error => Rejected error
        | None =>
            match qdata result with
            | Some data => Fulfilled (normalizeAttendeeData data)
            | None => Rejected "Cannot read properties of null"
            end
        end
    end.

(** [updateAttendee]: the update query either reports an error, which is
    thrown, or the promise resolves with no value. *)
Definition updateAttendee (configured : bool)
    (query : outcome (QueryResult unit)) : outcome unit :=
  if negb configured then Rejected "Supabase not configured"
  else
    match query with
    | Rejected error => Rejected error
    | Fulfilled result =>
        match qerror result with
        | Some error => Rejected error
        | None => Fulfilled tt
        end
    end.

(** A row as [saveData] sends it: the object literal of its [map] callback,
    which has no id, no email and no additional info. *)
Record InsertRow : Type := mkInsertRow {
  ins_table_number : value;
  ins_group_name : value;
  ins_attendee_name : value;
  ins_ticket_type : value;
  ins_status : value;
  ins_checked_in_at : value;
  ins_row_index : value
}.

Definition toInsertRow (attendee : Attendee) : InsertRow :=
  {| ins_table_number := tableNumber attendee;
     ins_group_name := groupName attendee;
     ins_attendee_name := attendeeName attendee;
     ins_ticket_type := ticketType attendee;
     ins_status := status attendee;
     ins_checked_in_at := checkedInAt attendee;
     ins_row_index := rowIndex attendee |}.

Definition batchSize : nat := 100.

(** [data.slice(i, i + batchSize).map(...)]. *)
Definition batchAt (data : roster) (i : nat) : list InsertRow :=
  toInsertRow <$> take batchSize (drop i data).

(** The [for] loop of [saveData] from index [i] on, [k] batches having been
    sent: the batches it sends and how it ends. [insert n] is how the insert
    of batch number [n] settles. Every turn moves [i] forward, so
    [length data] turns are enough: [fuel] counts them down. *)
Fixpoint insertFrom (fuel : nat) (data : roster)
    (insert : nat → outcome (QueryResult unit)) (i k : nat)
    : list (list InsertRow) * outcome unit :=
  match fuel with
  | O => ([], Fulfilled tt)
  | S fuel' =>
      if (i <? length data)%nat then
        let batch := batchAt data i in
        match insert k with
        | Rejected error => ([batch], Rejected error)
        | Fulfilled result =>
            match qerror result with
            | Some error => ([batch], Rejected error)
            | None =>
                let '(sent, ended) :=
                  insertFrom fuel' data insert (i + batchSize) (S k) in
                (batch :: sent, ended)
            end
        end
      else ([], Fulfilled tt)
  end.

(** The query went through: it settled fulfilled and reports no error. *)
Definition succeeded {A} (q : outcome (QueryResult A)) : Prop :=
  ∃ result, q = Fulfilled result ∧ qerror result = None.

(** [saveData(data)]: the batches sent for insertion and how the promise
    settles. [deleted] is how the delete of the old rows settles; an error
    it reports is not looked at, only a rejection stops the save. *)
Definition saveData (configured : bool) (data : roster)
    (deleted : outcome (QueryResult unit))
    (insert : nat → outcome (QueryResult unit))
    : list (list InsertRow) * outcome unit :=
  if negb configured then ([], Rejected "Supabase not configured")
  else
    match deleted with
    | Rejected error => ([], Rejected error)
    | Fulfilled _ => insertFrom (length data) data insert 0 0
    end.

End SupabaseDataSource.

(** ** window.handleRealtimeUpdate (data-sources.js) *)

(** A change notification of the database: [{ eventType, new, old }]. *)
Record Payload : Type := mkPayload {
  eventType : value;
  new : option SupabaseDataSource.Row;
  old : option SupabaseDataSource.Row
}.

(** [attendees.findIndex(a => a.id === wanted)]; [None] stands for -1. *)
Fixpoint findIndex (wanted : value) (attendees : roster) : option nat :=
  match attendees with
  | [] => None
  | a :: rest =>
      if strict_eq (id a) wanted then Some 0
      else S <$> findIndex wanted rest
  end.

(** The object literal assigned to [window.attendees[index]]; it has no
    [email] and no [additionalInfo] property. *)
Definition recordOfRealtime (newRecord : SupabaseDataSource.Row) : Attendee :=
  {| id := SupabaseDataSource.row_id newRecord;
     tableNumber := VStr (text (SupabaseDataSource.table_number newRecord));
     groupName := VStr (text (SupabaseDataSource.group_name newRecord));
     attendeeName := VStr (text (SupabaseDataSource.attendee_name newRecord));
     ticketType := VStr (text (SupabaseDataSource.ticket_type newRecord));
     email := VUndef;
     additionalInfo := VUndef;
     status := or_else (SupabaseDataSource.row_status newRecord) pending;
     checkedInAt := SupabaseDataSource.checked_in_at newRecord;
     rowIndex := SupabaseDataSource.row_index newRecord |}.

(** [handleRealtimeUpdate(payload)] as a function on [window.attendees]. *)
Definition handleRealtimeUpdate (attendees : roster) (payload : Payload)
    : roster :=
  if strict_eq (eventType payload) (VStr "UPDATE") then
    match new payload with
    | Some newRecord =>
        match findIndex (SupabaseDataSource.row_id newRecord) attendees with
        | Some index => <[index := recordOfRealtime newRecord]> attendees
        | None => attendees
        end
    | None => attendees
    end
  else attendees.

(** ** GoogleSheetsIntegration (config.js) *)

Module GoogleSheetsIntegration.

(** The object [normalizeAttendee] builds. *)
Record SheetAttendee : Type := mkSheetAttendee {
  tableNumber : string;
  groupName : string;
  attendeeName : string;
  ticketType : string;
  status : string;
  rowIndex : nat
}.

#[global] Instance SheetAttendee_eq_dec : EqDecision SheetAttendee.
Proof. solve_decision. Defined.

(** [normalizeAttendee(values, rowIndex)]; [None] stands for [null]. *)
Definition normalizeAttendee (values : list value) (rowIndex : nat)
    : option SheetAttendee :=
  let attendee :=
    {| tableNumber := column values 0;
       groupName := column values 1;
       attendeeName := column values 2;
       ticketType := column values 3;
       status := "pending";
       rowIndex := rowIndex |} in
  let attendee :=
    if negb (nonempty (groupName attendee)) && nonempty (ticketType attendee)
    then mkSheetAttendee (tableNumber attendee) (ticketType attendee)
           (attendeeName attendee) (ticketType attendee) (status attendee)
           (GoogleSheetsIntegration.rowIndex attendee)
    else attendee in
  let attendee :=
    if negb (nonempty (tableNumber attendee))
    then mkSheetAttendee "General" (groupName attendee)
           (attendeeName attendee) (ticketType attendee) (status attendee)
           (GoogleSheetsIntegration.rowIndex attendee)
    else attendee in
  if nonempty (tableNumber attendee) || nonempty (groupName attendee)
     || nonempty (attendeeName attendee)
  then Some attendee else None.

(** The row filter of [parseSheetRows]: [row && (row[0] || row[1] ||
    row[2])]; a row is an array, which is truthy. *)
Definition hasData (row : list value) : bool :=
  truthy (or_else (or_else (get row 0) (get row 1)) (get row 2)).

(** [rows.slice(1).filter(...).map((row, index) => normalizeAttendee(row,
    index + 2)).filter(Boolean)]. *)
Definition parseSheetRows (rows : list (list value)) : list SheetAttendee :=
  omap (λ attendee, attendee)
    (imap (λ index row, normalizeAttendee row (index + 2))
       (filter (λ row, hasData row = true) (drop 1 rows))).

(** [value.trim().replace(/^"|"$/g, '')]: the value trimmed, then without
    a quote at its start and without a quote at its end. *)
Definition dropFirstQuote (s : string) : string :=
  match s with
  | String c r => if bool_decide (c = "034"%char) then r else s
  | EmptyString => EmptyString
  end.

Definition unquote (value : string) : string :=
  String.rev (dropFirstQuote (String.rev (dropFirstQuote (trim value)))).

(** The [catch] branch of [parseCsvData], taken when the spreadsheet
    library cannot read the text: [lines.slice(1).filter(line =>
    line.trim())], every line split at its commas. *)
Definition parseCsvDataManually (csvText : string) : list SheetAttendee :=
  let lines := split "010"%char csvText in
  let dataRows :=
    filter (λ line, nonempty (trim line) = true) (drop 1 lines) in
  omap (λ attendee, attendee)
    (imap (λ index line,
             let values := unquote <$> split ","%char line in
             normalizeAttendee (VStr <$> values) (index + 2))
       dataRows).

(** [syncFromGoogleSheet(sheetUrl)]. [attempts] tells, for each configured
    method in its order, how [this[`syncMethod_${method}`](sheetUrl)]
    settles when it is called (a method that does not exist throws, which is
    a rejection); a method is called only when the ones before it failed. *)
Definition allMethodsFailed : string :=
  "All Google Sheets sync methods failed. Please try manual upload instead.".

Fixpoint syncFromGoogleSheet (attempts : list (outcome (list SheetAttendee)))
    : outcome (list SheetAttendee) :=
  match attempts with
  | [] => Rejected allMethodsFailed
  | Fulfilled data :: rest =>
      if (0 <? length data)%nat then Fulfilled data
      else syncFromGoogleSheet rest
  | Rejected _ :: rest => syncFromGoogleSheet rest
  end.

(** A method failed: it was rejected or brought no row. *)
Definition methodFailed (attempt : outcome (list SheetAttendee)) : Prop :=
  match attempt with
  | Fulfilled data => data = []
  | Rejected _ => True
  end.

End GoogleSheetsIntegration.

(** ** toggleCheckIn (check-in interface) *)

Module CheckIn.

(** [s === 'checked-in' ? 'pending' : 'checked-in']. *)
Definition flipped (s : value) : value :=
  if strict_eq s checked_in then pending else checked_in.

Definition setStatus (a : Attendee) (newStatus newCheckedInAt : value)
    : Attendee :=
  mkAttendee (id a) (tableNumber a) (groupName a) (attendeeName a)
    (ticketType a) (email a) (additionalInfo a)
    newStatus newCheckedInAt (rowIndex a).

(** [timestamp]: [now] is what [new Date().toISOString()] returns. *)
Definition timestampFor (newStatus : value) (now : string) : value :=
  if strict_eq newStatus checked_in then VStr now else VNull.

(** The optimistic update of the record found. *)
Definition optimistic (attendee : Attendee) (now : string) : Attendee :=
  let newStatus := flipped (status attendee) in
  let timestamp := timestampFor newStatus now in
  setStatus attendee newStatus timestamp.

(** The two assignments of the [catch] block, in their order: the status is
    flipped back first, then [checkedInAt] is computed from the status just
    assigned and from the [timestamp] of this call. *)
Definition revert (attendee : Attendee) (timestamp : value) : Attendee :=
  let status' := flipped (status attendee) in
  let checkedInAt' :=
    if strict_eq status' checked_in then timestamp else VNull in
  setStatus attendee status' checkedInAt'.

(** [updateStatistics()] writes four counters, each through
    [document.getElementById(id).textContent = ...]. [getElementById] is
    null for an id the document lacks and the assignment then throws, so
    the call returns only when the document has all four elements.
    [elements] is the set of the ids of the document; [None] is the throw.
    The roster is only read. *)
Definition counters : list string :=
  ["totalCount"; "checkedInCount"; "pendingCount"; "checkInRate"].

Definition updateStatistics (elements : gset string) : option unit :=
  if forallb (λ counter, bool_decide (counter ∈ elements)) counters
  then Some tt else None.

(** [toggleCheckIn(attendeeId)] once the promise of [updateAttendee] has
    settled as [update], in a document with the given [elements]: the
    roster the handler leaves. The record found is mutated in place, so the
    roster changes at its index only; the index [findIndex] returns is
    always in range. Nothing else touches the roster between the call and
    the settling. The [catch] block runs when the update is rejected and
    also when it is fulfilled and [updateStatistics], called in the same
    [try], throws. [updateDisplay] is the page's own function and is taken
    to return. *)
Definition toggleCheckIn {A} (attendees : roster) (attendeeId : value)
    (now : string) (update : outcome A) (elements : gset string) : roster :=
  match findIndex attendeeId attendees with
  | None => attendees
  | Some i =>
      match attendees !! i with
      | None => attendees
      | Some attendee =>
          let timestamp := timestampFor (flipped (status attendee)) now in
          let updated := optimistic attendee now in
          match update with
          | Fulfilled _ =>
              match updateStatistics elements with
              | Some _ => <[i := updated]> attendees
              | None => <[i := revert updated timestamp]> attendees
              end
          | Rejected _ => <[i := revert updated timestamp]> attendees
          end
      end
  end.

End CheckIn.

(** ** window.DataSourceManager (data-sources.js) *)

Module DataSourceManager.

(** The three source types the application offers. *)
Inductive SourceType : Type := csv | googlesheets | supabase.

#[global] Instance SourceType_eq_dec : EqDecision SourceType.
Proof. solve_decision. Defined.

(** [supportsPolling()] of the three classes. *)
Definition supportsPolling (t : SourceType) : bool :=
  match t with
  | csv | googlesheets => true
  | supabase => false
  end.

(** A [loadData()] call whose promise has not settled yet. [started_on] is
    the source it was called on. [started_at] is the number of source
    switches that had happened when it was called: the source keeps no such
    counter, it is recorded here only to tell which responses are late. *)
Record Load : Type := mkLoad {
  load_id : nat;
  started_on : SourceType;
  started_at : nat
}.

(** The manager, the roster it feeds ([window.attendees]) and the event loop
    around it: [pollingInterval] tells whether the timer is armed,
    [inflight] holds the loads started and not yet settled. [generation] is
    no variable of the source: it counts the confirmed source switches, so
    that a statement can tell which load is late. *)
Record State : Type := mkState {
  currentSource : option SourceType;
  pollingInterval : bool;
  attendees : roster;
  generation : nat;
  inflight : list Load;
  next_load : nat
}.

(** What can happen next: the polling timer fires; [switchDataSource(newType,
    settings)] is called, the user answers [confirmed] to the dialog, and
    [interval] is the poll interval configured for [newType]; the promise of
    the load [settled] settles. *)
Inductive Event : Type :=
  | Tick
  | SwitchDataSource (newType : SourceType) (confirmed : bool) (interval : Z)
  | Settle (settled : nat) (result : outcome roster).

(** What both continuations of [loadData()] do with the roster: the polling
    callback hands a non-empty [data] to [handleDataSourceUpdate], which
    assigns it to [window.attendees]; [switchDataSource] assigns a non-empty
    [data] itself; both only report a rejection. *)
Definition receive (attendees : roster) (result : outcome roster) : roster :=
  match result with
  | Fulfilled data => if (0 <? length data)%nat then data else attendees
  | Rejected _ => attendees
  end.

(** [setupPolling()] after the old timer was cleared: is a new one armed? *)
Definition setupPolling (source : option SourceType) (interval : Z) : bool :=
  let pollInterval := if (interval =? 0)%Z then 5000%Z else interval in
  match source with
  | Some s => (0 <? pollInterval)%Z && supportsPolling s
  | None => false
  end.

Definition startLoad (s : State) (on : SourceType) (at_generation : nat)
    : list Load :=
  inflight s ++ [mkLoad (next_load s) on at_generation].

Definition isLoad (n : nat) (l : Load) : bool := bool_decide (load_id l = n).

Definition step (s : State) (e : Event) : State :=
  match e with
  | Tick =>
      match pollingInterval s, currentSource s with
      | true, Some source =>
          mkState (currentSource s) (pollingInterval s) (attendees s)
            (generation s) (startLoad s source (generation s))
            (S (next_load s))
      | _, _ => s
      end
  | SwitchDataSource newType confirmed interval =>
      if bool_decide (currentSource s = Some newType) then s
      else if negb confirmed then s
      else
        mkState (Some newType) (setupPolling (Some newType) interval) []
          (S (generation s)) (startLoad s newType (S (generation s)))
          (S (next_load s))
  | Settle n result =>
      match List.find (isLoad n) (inflight s) with
      | Some _ =>
          mkState (currentSource s) (pollingInterval s)
            (receive (attendees s) result) (generation s)
            (List.filter (λ l, negb (isLoad n l)) (inflight s))
            (next_load s)
      | None => s
      end
  end.

Definition run (s : State) (events : list Event) : State :=
  foldl step s events.

(** A load is late when the source was switched after it was started. *)
Definition late (s : State) (l : Load) : Prop :=
  (started_at l < generation s)%nat.

(** What holds of the loads in flight in every state the manager reaches. *)
Definition wellFormed (s : State) : Prop :=
  Forall (λ l, (started_at l ≤ generation s)%nat
               ∧ (load_id l < next_load s)%nat) (inflight s).

(** An event that cannot bring new data: the timer firing, a switch the user
    refuses, a load that settles rejected or with no record. *)
Definition quiet (e : Event) : bool :=
  match e with
  | Tick => true
  | SwitchDataSource _ confirmed _ => negb confirmed
  | Settle _ (Fulfilled data) => bool_decide (data = [])
  | Settle _ (Rejected _) => true
  end.

(** [init()] with the source type of the configuration, before any data
    arrived. *)
Definition init (type : SourceType) (interval : Z) : State :=
  mkState (Some type) (setupPolling (Some type) interval) [] 0 [] 0.

End DataSourceManager.

(** ** adjustColor (config.js) *)

Module Config.

(** The value of a hexadecimal digit, in either case. *)
Definition hexDigitValue (c : ascii) : option Z :=
  let n := nat_of_ascii c in
  if (48 <=? n)%nat && (n <=? 57)%nat then Some (Z.of_nat n - 48)%Z
  else if (97 <=? n)%nat && (n <=? 102)%nat then Some (Z.of_nat n - 87)%Z
  else if (65 <=? n)%nat && (n <=? 70)%nat then Some (Z.of_nat n - 55)%Z
  else None.

(** The number written by the longest run of hexadecimal digits at the
    start of [s], after the digits already read as [acc]; [None] when no
    digit was read. *)
Fixpoint hexPrefix (s : string) (acc : option Z) : option Z :=
  match s with
  | String c r =>
      match hexDigitValue c with
      | Some d => hexPrefix r (Some (16 * default 0%Z acc + d)%Z)
      | None => acc
      end
  | EmptyString => acc
  end.

(** [parseInt(s, 16)]: leading whitespace, a sign and a [0x] prefix are
    skipped, then the longest run of digits is read; [None] stands for
    [NaN]. The number is exact, as it is in JavaScript for up to thirteen
    digits. *)
Definition skipSign (s : string) : bool * string :=
  match s with
  | String c r =>
      if bool_decide (c = "-"%char) then (true, r)
      else if bool_decide (c = "+"%char) then (false, r)
      else (false, s)
  | EmptyString => (false, s)
  end.

Definition skipRadixPrefix (s : string) : string :=
  match s with
  | String c (String x r) =>
      if bool_decide (c = "0"%char)
         && (bool_decide (x = "x"%char) || bool_decide (x = "X"%char))
      then r else s
  | _ => s
  end.

Definition parseInt16 (s : string) : option Z :=
  let '(negative, s) := skipSign (trimStart s) in
  match hexPrefix (skipRadixPrefix s) None with
  | Some n => Some (if negative : bool then (- n)%Z else n)
  | None => None
  end.

(** ToInt32, which the bit operators apply to their operands; [NaN]
    becomes 0. *)
Definition toInt32 (num : option Z) : Z :=
  match num with
  | Some n => ((n + 2 ^ 31) mod 2 ^ 32 - 2 ^ 31)%Z
  | None => 0%Z
  end.

(** [x > 255 ? 255 : x < 0 ? 0 : x]. *)
Definition clamp (x : Z) : Z :=
  if (255 <? x)%Z then 255%Z else if (x <? 0)%Z then 0%Z else x.

(** A hexadecimal digit in lower case. *)
Definition hexChar (d : Z) : ascii :=
  if (d <? 10)%Z then ascii_of_nat (Z.to_nat d + 48)
  else ascii_of_nat (Z.to_nat d + 87).

(** The last [k] hexadecimal digits of [n], and a numeral without its
    leading zeros. *)
Fixpoint lastDigits (k : nat) (n : Z) : string :=
  match k with
  | O => EmptyString
  | S k' =>
      lastDigits k' (n / 16)%Z
      +:+ String (hexChar (n mod 16)%Z) EmptyString
  end.

Fixpoint dropZeros (s : string) : string :=
  match s with
  | String c r => if bool_decide (c = "0"%char) then dropZeros r else s
  | EmptyString => EmptyString
  end.

(** [n.toString(16)] for an integer [n] that is not negative: its
    hexadecimal digits without leading zeros, and 0 for zero. A number has
    no more hexadecimal digits than binary ones. *)
Definition toString16 (n : Z) : string :=
  if (n <=? 0)%Z then "0"
  else dropZeros (lastDigits (S (Z.to_nat (Z.log2 n))) n).

(** [s.padStart(width, '0')]. *)
Fixpoint zeros (k : nat) : string :=
  match k with
  | O => EmptyString
  | S k' => String "0" (zeros k')
  end.

Definition padStart (width : nat) (s : string) : string :=
  zeros (width - String.length s) +:+ s.

(** [color[0] === '#'] and [color.slice(1)]. *)
Definition startsWithPound (color : string) : bool :=
  match color with
  | String c _ => bool_decide (c = "#"%char)
  | EmptyString => false
  end.

Definition slice1 (color : string) : string :=
  match color with
  | String _ r => r
  | EmptyString => EmptyString
  end.

(** [adjustColor(color, amount)], for an integer [amount]. *)
Definition adjustColor (color : string) (amount : Z) : string :=
  let usePound := startsWithPound color in
  let col := if usePound then slice1 color else color in
  let num := toInt32 (parseInt16 col) in
  let r := (Z.shiftr num 16 + amount)%Z in
  let g := (Z.land (Z.shiftr num 8) 255 + amount)%Z in
  let b := (Z.land num 255 + amount)%Z in
  let r := clamp r in
  let g := clamp g in
  let b := clamp b in
  (if usePound then "#" else "")
  +:+ padStart 6 (toString16 (Z.lor (Z.lor (Z.shiftl r 16) (Z.shiftl g 8)) b)).

(** Two hexadecimal digits for a byte. *)
Definition hex2 (x : Z) : string :=
  String (hexChar (x / 16)%Z) (String (hexChar (x mod 16)%Z) EmptyString).

(** The two characters are hexadecimal digits, in either case, that write
    the byte [x]. *)
Definition writesByte (high low : ascii) (x : Z) : Prop :=
  ∃ h l, hexDigitValue high = Some h ∧ hexDigitValue low = Some l
         ∧ x = (16 * h + l)%Z.

End Config.

(** ** Predicates on the characters of a string *)

(** Every character of the string passes the test; some character does. *)
Fixpoint string_all (P : ascii → bool) (s : string) : bool :=
  match s with
  | EmptyString => true
  | String c r => P c && string_all P r
  end.

Definition string_any (P : ascii → bool) (s : string) : bool :=
  negb (string_all (λ c, negb (P c)) s).

Definition is_char (x : ascii) (c : ascii) : bool := bool_decide (c = x).

(** ** Regular expressions *)

Module Regex.

(** A regular expression over characters; a character class is a test. *)
Inductive re : Type :=
  | Never
  | Eps
  | Class (P : ascii → bool)
  | Seq (a b : re)
  | Or (a b : re)
  | Star (a : re).

Fixpoint nullable (r : re) : bool :=
  match r with
  | Never => false
  | Eps => true
  | Class _ => false
  | Seq a b => nullable a && nullable b
  | Or a b => nullable a || nullable b
  | Star _ => true
  end.

(** What is left to match once the character [c] has been read. *)
Fixpoint deriv (c : ascii) (r : re) : re :=
  match r with
  | Never => Never
  | Eps => Never
  | Class P => if P c then Eps else Never
  | Seq a b =>
      if nullable a then Or (Seq (deriv c a) b) (deriv c b)
      else Seq (deriv c a) b
  | Or a b => Or (deriv c a) (deriv c b)
  | Star a => Seq (deriv c a) (Star a)
  end.

(** The whole string matches: [/^r$/.test(s)]. *)
Fixpoint matches (r : re) (s : string) : bool :=
  match s with
  | EmptyString => nullable r
  | String c s' => matches (deriv c r) s'
  end.

(** [r+], [r{2,}], any text, and a match somewhere in the string:
    [/r/.test(s)]. *)
Definition plus (r : re) : re := Seq r (Star r).
Definition twoOrMore (r : re) : re := Seq r (Seq r (Star r)).
Definition anything : re := Star (Class (λ _, true)).
Definition test (r : re) (s : string) : bool :=
  matches (Seq anything (Seq r anything)) s.

(** One character, and a text, read as written or without regard to case
    (the [i] flag). *)
Definition chr (x : ascii) : re := Class (λ c, bool_decide (c = x)).
Definition chr_i (x : ascii) : re :=
  Class (λ c, bool_decide (lower_char c = lower_char x)).

Fixpoint lit_i (s : string) : re :=
  match s with
  | EmptyString => Eps
  | String x r => Seq (chr_i x) (lit_i r)
  end.

Fixpoint anyOf (rs : list re) : re :=
  match rs with
  | [] => Never
  | r :: rest => Or r (anyOf rest)
  end.

(** The characters an expression can read at all, and a sufficient test for
    an expression that matches nothing. *)
Fixpoint alphabet (r : re) (c : ascii) : bool :=
  match r with
  | Never | Eps => false
  | Class P => P c
  | Seq a b | Or a b => alphabet a c || alphabet b c
  | Star a => alphabet a c
  end.

Fixpoint dead (r : re) : bool :=
  match r with
  | Never => true
  | Eps | Class _ | Star _ => false
  | Seq a b => dead a || dead b
  | Or a b => dead a && dead b
  end.

(** The character classes of the patterns. *)
Definition isLetter (c : ascii) : bool :=
  let n := nat_of_ascii c in
  ((65 <=? n)%nat && (n <=? 90)%nat) || ((97 <=? n)%nat && (n <=? 122)%nat).

Definition isDigit (c : ascii) : bool :=
  let n := nat_of_ascii c in (48 <=? n)%nat && (n <=? 57)%nat.

(** [\w]. *)
Definition isWord (c : ascii) : bool :=
  isLetter c || isDigit c || bool_decide (c = "_"%char).

End Regex.

(** ** EmailValidator (email-validation.js) *)

Module EmailValidator.
Import Regex.

(** [[a-zA-Z0-9._+-]] and [[a-zA-Z0-9.-]]. *)
Definition isLocalChar (c : ascii) : bool :=
  isLetter c || isDigit c || bool_decide (c = "."%char)
  || bool_decide (c = "_"%char) || bool_decide (c = "+"%char)
  || bool_decide (c = "-"%char).

Definition isDomainChar (c : ascii) : bool :=
  isLetter c || isDigit c || bool_decide (c = "."%char)
  || bool_decide (c = "-"%char).

(** [/^[a-zA-Z0-9._+-]+@[a-zA-Z0-9.-]+\.[a-zA-Z]{2,}$/]. *)
Definition EMAIL_REGEX : re :=
  Seq (plus (Class isLocalChar))
    (Seq (chr "@")
       (Seq (plus (Class isDomainChar))
          (Seq (chr ".") (twoOrMore (Class isLetter))))).

(** [/<|>|&lt;|&gt;|javascript:|on\w+=/i]. *)
Definition DANGEROUS_CHARS : re :=
  anyOf [lit_i "<"; lit_i ">"; lit_i "&lt;"; lit_i "&gt;";
         lit_i "javascript:";
         Seq (lit_i "on") (Seq (plus (Class isWord)) (chr_i "="))].

(** The SQL pattern: a quote of either kind, a semicolon, a comment mark, a
    star, [xp_], [sp_] or one of the keywords, without regard to case. *)
Definition SQL_INJECTION_PATTERNS : re :=
  anyOf [lit_i "'"; chr_i "034"; lit_i ";"; lit_i "--"; lit_i "*";
         lit_i "/*"; lit_i "*/"; lit_i "xp_"; lit_i "sp_"; lit_i "union";
         lit_i "select"; lit_i "insert"; lit_i "update"; lit_i "delete";
         lit_i "drop"; lit_i "create"; lit_i "alter"; lit_i "exec";
         lit_i "execute"].

(** The characters of an address: those of the local part and the at
    sign. *)
Definition isAddressChar (c : ascii) : bool :=
  isLocalChar c || bool_decide (c = "@"%char).

(** Not one of the two angle brackets. *)
Definition notAngle (c : ascii) : bool :=
  negb (bool_decide (c = "<"%char)) && negb (bool_decide (c = ">"%char)).

(** [s.startsWith(sub)] and [s.includes(sub)]. *)
Fixpoint startsWith (sub s : string) : bool :=
  match sub, s with
  | EmptyString, _ => true
  | String x sub', String c s' => bool_decide (c = x) && startsWith sub' s'
  | String _ _, EmptyString => false
  end.

Fixpoint includes (sub s : string) : bool :=
  startsWith sub s
  || match s with
     | EmptyString => false
     | String _ s' => includes sub s'
     end.

(** [(s.match(/@/g) || []).length]. *)
Fixpoint countChar (x : ascii) (s : string) : nat :=
  match s with
  | EmptyString => O
  | String c s' => (if bool_decide (c = x) then 1 else 0) + countChar x s'
  end.

(** [isValid(email)]. *)
Definition isValid (email : value) : bool :=
  match email with
  | VStr email =>
      if negb (nonempty email) then false
      else
        let trimmed := trim email in
        if (String.length trimmed =? 0)%nat then false
        else if test DANGEROUS_CHARS trimmed then false
        else if test SQL_INJECTION_PATTERNS trimmed then false
        else if negb (matches EMAIL_REGEX trimmed) then false
        else
          let atCount := countChar "@" trimmed in
          if negb (atCount =? 1)%nat then false
          else
            let parts := split "@" trimmed in
            if (String.length (get parts 0) =? 0)%nat
               || (String.length (get parts 1) =? 0)%nat then false
            else if negb (includes "." (get parts 1)) then false
            else if includes ".." trimmed then false
            else if (254 <? String.length trimmed)%nat then false
            else true
  | _ => false
  end.

(** [escapeHtml(text)]: the text is put into an element and the markup of
    the element is read back, which writes [&], [<] and [>] as entities. *)
Definition escapeChar (c : ascii) : string :=
  if bool_decide (c = "&"%char) then "&amp;"
  else if bool_decide (c = "<"%char) then "&lt;"
  else if bool_decide (c = ">"%char) then "&gt;"
  else String c EmptyString.

Fixpoint escapeHtml (text : string) : string :=
  match text with
  | EmptyString => EmptyString
  | String c r => escapeChar c +:+ escapeHtml r
  end.

(** [sanitize(email)] and [formatForDisplay(email)]. *)
Definition sanitize (email : value) : string :=
  match email with
  | VStr email =>
      if negb (nonempty email) then ""
      else escapeHtml (toLowerCase (trim email))
  | _ => ""
  end.

Definition formatForDisplay (email : value) : string :=
  match email with
  | VStr email =>
      if negb (nonempty email) then "" else escapeHtml (trim email)
  | _ => ""
  end.

(** What [validate] returns; [None] stands for the [null] error. *)
Record Result : Type := mkResult {
  valid : bool;
  error : option string;
  sanitized : string
}.

(** [validate(email)]. The two pattern tests read the text as given, not
    trimmed; they are reached only for a string, since [sanitize] is empty
    for every other value. *)
Definition validate (email : value) : Result :=
  let sanitized := sanitize email in
  if negb (truthy email) then mkResult false (Some "Email is required") ""
  else if (String.length sanitized =? 0)%nat then
    mkResult false (Some "Email cannot be empty") ""
  else
    let raw := toString email in
    if test DANGEROUS_CHARS raw then
      mkResult false (Some "Email contains invalid characters") sanitized
    else if test SQL_INJECTION_PATTERNS raw then
      mkResult false (Some "Email contains invalid characters") sanitized
    else if negb (isValid email) then
      mkResult false
        (Some "Invalid email format. Please use format: user@example.com")
        sanitized
    else mkResult true None sanitized.

(** The validator as the row normalizer of the Google Sheets adapter sees
    it: [window.EmailValidator.validate] applied to the text of the email
    column. *)
Definition forRows (email : string) : Validation :=
  let result := validate (VStr email) in
  mkValidation (valid result) (sanitized result).

(** [validateMultiple(emails, separator)] for a one-character separator,
    as its default [,] is. The entries are sorted one by one, in the order
    of the text, into the two arrays of the result. *)
Record Refused : Type := mkRefused {
  refusedEmail : string;
  reason : option string
}.

Record Sorted : Type := mkSorted {
  validEmails : list string;
  invalidEmails : list Refused
}.

Definition emailList (emails : string) (separator : ascii) : list string :=
  List.filter (λ e, 0 <? String.length e)%nat
    (trim <$> split separator emails).

Definition sortEmail (sorted : Sorted) (email : string) : Sorted :=
  if isValid (VStr email) then
    mkSorted (validEmails sorted ++ [sanitize (VStr email)])%list
      (invalidEmails sorted)
  else
    mkSorted (validEmails sorted)
      (invalidEmails sorted
       ++ [mkRefused email (error (validate (VStr email)))])%list.

Definition validateMultiple (emails : value) (separator : ascii) : Sorted :=
  match emails with
  | VStr emails =>
      if negb (nonempty emails) then mkSorted [] []
      else foldl sortEmail (mkSorted [] []) (emailList emails separator)
  | _ => mkSorted [] []
  end.

End EmailValidator.

(** * Properties *)

(** ** String primitives *)

Section StringFacts.

Lemma nonempty_true (s : string) : nonempty s = true ↔ s ≠ "".
Proof.
  unfold nonempty. rewrite negb_true_iff, bool_decide_eq_false. done.
Qed.

Lemma nonempty_false (s : string) : nonempty s = false ↔ s = "".
Proof.
  unfold nonempty. rewrite negb_false_iff, bool_decide_eq_true. done.
Qed.

Lemma str_or_empty_r (s : string) : str_or s "" = s.
Proof.
  unfold str_or. destruct (nonempty s) eqn:E; [done|].
  by apply nonempty_false in E.
Qed.

Lemma toLowerCase_nonempty (s : string) :
  nonempty (toLowerCase s) = nonempty s.
Proof. by destruct s. Qed.

Lemma replace_ws_nonempty (s : string) :
  nonempty (replace_ws s) = nonempty s.
Proof.
  destruct s as [|c r]; [done|].
  unfold replace_ws. simpl. by destruct (Ascii.is_space c).
Qed.

End StringFacts.

(** ** parseCsvData of the Google Sheets adapter *)

Section ParseCsv.
Import GoogleSheetsDataSource.

Lemma parseRows_filter (lines : list string) :
  Forall (λ line, nonempty (trim line) = true) lines →
  parseRows lines = filter admitted (parseLine <$> lines).
Proof.
  induction 1 as [|line lines Hline _ IH]; [done|].
  cbn [parseRows fmap list_fmap]. rewrite Hline. cbn [negb].
  rewrite filter_cons, IH. unfold admitted at 2.
  destruct (3 <=? length (nonEmptyValues (parseLine line)))%nat eqn:E.
  - apply Nat.leb_le in E. by rewrite decide_True.
  - apply Nat.leb_gt in E. rewrite decide_False; [done|].
    unfold admitted. lia.
Qed.

Lemma nonBlankLines_Forall (csvText : string) :
  Forall (λ line, nonempty (trim line) = true) (nonBlankLines csvText).
Proof.
  unfold nonBlankLines. apply Forall_forall.
  intros line Hin. by apply list_elem_of_filter in Hin as [? _].
Qed.

Lemma parseCsvData_rows (csvText : string) :
  parseCsvData csvText =
    filter admitted (parseLine <$> drop 1 (nonBlankLines csvText)).
Proof.
  unfold parseCsvData.
  pose proof (nonBlankLines_Forall csvText) as HF.
  destruct (length (nonBlankLines csvText) <? 2)%nat eqn:E.
  - apply Nat.ltb_lt in E.
    destruct (nonBlankLines csvText) as [|h [|h' t]]; simpl in *;
      [done|done|lia].
  - apply parseRows_filter. by apply Forall_drop.
Qed.

End ParseCsv.

Section ParseCsvSpec.
Import GoogleSheetsDataSource.

(** C10. For every CSV text, [parseCsvData] returns the empty list when
    the text has fewer than two non-blank lines; otherwise it skips the
    first non-blank line as the header and returns, in order, the parsed
    values of exactly those later non-blank lines that have at least three
    non-empty fields. So every returned row has at least three non-empty
    fields, and a line with only one or two of them is dropped. *)
Theorem parseCsvData_skips_header_and_short_rows (csvText : string) :
  ((length (nonBlankLines csvText) < 2)%nat → parseCsvData csvText = [])
  ∧ (∀ header rest, nonBlankLines csvText = header :: rest →
       parseCsvData csvText = filter admitted (parseLine <$> rest))
  ∧ Forall admitted (parseCsvData csvText)
  ∧ (∀ line, line ∈ drop 1 (nonBlankLines csvText) →
       ¬ admitted (parseLine line) →
       parseLine line ∉ parseCsvData csvText).
Proof.
  rewrite parseCsvData_rows. repeat split.
  - intros Hlen.
    destruct (nonBlankLines csvText) as [|h [|h' t]]; simpl in *;
      [done|done|lia].
  - by intros header rest ->.
  - apply Forall_forall. intros values Hin.
    by apply list_elem_of_filter in Hin as [? _].
  - intros line _ Hshort Hin.
    by apply list_elem_of_filter in Hin as [? _].
Qed.

(** A sheet whose only data row carries a name and a ticket type. *)
Definition nameAndTicketOnly : string :=
  unlines ["Table,Group,Name,Ticket"; ",,Jane Doe,Standard"].

Lemma parseCsvData_skips_header_and_short_rows_witness :
  parseCsvData "Table,Group,Name,Ticket" = []
  ∧ parseCsvData nameAndTicketOnly = []
  ∧ parseLine ",,Jane Doe,Standard" ∉ parseCsvData nameAndTicketOnly.
Proof.
  split; [|split].
  - apply (proj1 (parseCsvData_skips_header_and_short_rows _)).
    vm_compute. lia.
  - rewrite (proj1 (proj2 (parseCsvData_skips_header_and_short_rows
               nameAndTicketOnly))
               "Table,Group,Name,Ticket" [",,Jane Doe,Standard"]);
      reflexivity.
  - apply (proj2 (proj2 (proj2 (parseCsvData_skips_header_and_short_rows
               nameAndTicketOnly)))).
    + vm_compute. apply list_elem_of_here.
    + vm_compute. lia.
Defined.

End ParseCsvSpec.

(** ** Synthesized ids *)

Section SynthesizedIds.
Import GoogleSheetsDataSource.

Lemma normalizedName_nonempty (s : string) :
  nonempty (normalizedName s) = nonempty s.
Proof.
  unfold normalizedName.
  by rewrite toLowerCase_nonempty, replace_ws_nonempty.
Qed.

(** The id as a function of the normalized name and the index. *)
Lemma rowId_of_normalizedName (n : string) (i : nat) :
  rowId n i =
    if nonempty (normalizedName n)
    then "gsheet_" +:+ normalizedName n +:+ "_" +:+ pretty i
    else "gsheet_" +:+ pretty i.
Proof. unfold rowId. by rewrite normalizedName_nonempty. Qed.

Lemma rowId_same_name (n1 n2 : string) (i : nat) :
  normalizedName n1 = normalizedName n2 → rowId n1 i = rowId n2 i.
Proof. intros E. by rewrite !rowId_of_normalizedName, E. Qed.

Lemma normalizeRow_id ev (row : list value) (i : nat) :
  id (normalizeRow ev row i) = VStr (rowId (column row 2) i).
Proof. unfold normalizeRow. simpl. by rewrite str_or_empty_r. Qed.

Lemma normalizeRow_kept ev (row : list value) (i : nat) :
  truthy (attendeeName (normalizeRow ev row i)) = nonempty (nameKey row).
Proof.
  unfold normalizeRow, nameKey. simpl.
  by rewrite str_or_empty_r, normalizedName_nonempty.
Qed.

Lemma sheet_ids_from (ev1 ev2 : option (string → Validation))
    (d1 d2 : list (list value)) (k : nat) :
  nameKey <$> d1 = nameKey <$> d2 →
  id <$> filter (λ a, truthy (attendeeName a) = true)
           (imap (λ i row, normalizeRow ev1 row (k + i)) d1) =
  id <$> filter (λ a, truthy (attendeeName a) = true)
           (imap (λ i row, normalizeRow ev2 row (k + i)) d2).
Proof.
  revert d2 k. induction d1 as [|r1 d1 IH]; intros [|r2 d2] k E;
    try done.
  injection E as Ename Erest.
  rewrite !imap_cons, !filter_cons.
  rewrite !normalizeRow_kept, Ename.
  assert (Hid : id (normalizeRow ev1 r1 (k + 0))
                = id (normalizeRow ev2 r2 (k + 0))).
  { rewrite !normalizeRow_id. f_equal. by apply rowId_same_name. }
  assert (Htail :
    id <$> filter (λ a, truthy (attendeeName a) = true)
             (imap ((λ i row, normalizeRow ev1 row (k + i)) ∘ S) d1) =
    id <$> filter (λ a, truthy (attendeeName a) = true)
             (imap ((λ i row, normalizeRow ev2 row (k + i)) ∘ S) d2)).
  { rewrite (imap_ext _ (λ i row, normalizeRow ev1 row (S k + i)) d1),
      (imap_ext _ (λ i row, normalizeRow ev2 row (S k + i)) d2).
    - by apply IH.
    - intros i x _. simpl. f_equal. lia.
    - intros i x _. simpl. f_equal. lia. }
  case_decide; [|done].
  rewrite !fmap_cons. by f_equal.
Qed.

Lemma csv_ids_from (d : list CSVDataSource.RawAttendee) (k : nat) :
  Forall CSVDataSource.noId d →
  id <$> imap (λ i a, CSVDataSource.normalizeAttendee a (k + i)) d =
  (λ i, VStr ("csv_" +:+ pretty i)) <$> seq k (length d).
Proof.
  intros HF. revert k. induction HF as [|a d Ha _ IH]; intros k; [done|].
  rewrite imap_cons, !fmap_cons. cbn [length seq]. rewrite fmap_cons.
  f_equal.
  - unfold CSVDataSource.normalizeAttendee, or_else. simpl.
    unfold CSVDataSource.noId in Ha. rewrite Ha.
    do 3 f_equal. lia.
  - rewrite (imap_ext _
               (λ i a, CSVDataSource.normalizeAttendee a (S k + i)) d).
    + apply IH.
    + intros i x _. simpl. f_equal. lia.
Qed.

(** C9. The id synthesized for a row without a natural key is a function
    of the origin kind, the normalized attendee name and the row index
    only. Google Sheets: two snapshots whose rows have, position by
    position, the same normalized name yield element-wise identical ids,
    whatever the other columns and the email validator are; in particular
    the same snapshot normalized twice does. CSV: the rows of a snapshot
    that bring no id get the ids csv_0, csv_1, ... of their positions. *)
Theorem synthesized_ids_stable :
  (∀ (ev1 ev2 : option (string → Validation)) (d1 d2 : list (list value)),
      nameKey <$> d1 = nameKey <$> d2 →
      id <$> normalizeAttendeeData ev1 d1
      = id <$> normalizeAttendeeData ev2 d2)
  ∧ (∀ d : list CSVDataSource.RawAttendee,
      Forall CSVDataSource.noId d →
      id <$> CSVDataSource.normalizeAttendeeData d
      = (λ i, VStr ("csv_" +:+ pretty i)) <$> seq 0 (length d)).
Proof.
  split.
  - intros ev1 ev2 d1 d2 E. unfold normalizeAttendeeData.
    apply (sheet_ids_from ev1 ev2 d1 d2 0 E).
  - intros d HF. unfold CSVDataSource.normalizeAttendeeData.
    apply (csv_ids_from d 0 HF).
Qed.

(** Two snapshots of a sheet that differ in table, ticket and email but
    not in the names, and a CSV snapshot of two rows without ids. *)
Definition sheetBefore : list (list value) :=
  [[VStr "Table 1"; VStr "VIP"; VStr "John Smith"; VStr "VIP Ticket"];
   [VStr ""; VStr ""; VStr "Jane Doe"; VStr "Standard"]].

Definition sheetAfter : list (list value) :=
  [[VStr "Table 9"; VStr ""; VStr "  john   smith "; VStr ""];
   [VStr "Table 2"; VStr "Staff"; VStr "JANE DOE"; VStr "";
    VStr "jane@example.org"]].

Definition csvNoIds : list CSVDataSource.RawAttendee :=
  [CSVDataSource.mkRaw VUndef (VStr "Table 1") VUndef (VStr "John Smith")
     VUndef VUndef VUndef VUndef VUndef VUndef VUndef;
   CSVDataSource.mkRaw VNull VUndef VUndef (VStr "Jane Doe")
     VUndef VUndef VUndef VUndef (VStr "checked-in") VUndef VUndef].

Lemma synthesized_ids_stable_witness :
  id <$> normalizeAttendeeData None sheetBefore
    = id <$> normalizeAttendeeData None sheetAfter
  ∧ id <$> CSVDataSource.normalizeAttendeeData csvNoIds
    = [VStr "csv_0"; VStr "csv_1"].
Proof.
  split.
  - apply (proj1 synthesized_ids_stable). reflexivity.
  - apply (proj2 synthesized_ids_stable csvNoIds).
    repeat constructor.
Defined.

End SynthesizedIds.

(** ** Push deltas *)

Section Realtime.
Import SupabaseDataSource.

Lemma strict_eq_true (a b : value) : strict_eq a b = true ↔ a = b.
Proof. unfold strict_eq. apply bool_decide_eq_true. Qed.

Lemma strict_eq_false (a b : value) : strict_eq a b = false ↔ a ≠ b.
Proof. unfold strict_eq. apply bool_decide_eq_false. Qed.

(** [findIndex] returns the first position whose record has the id. *)
Lemma findIndex_Some (wanted : value) (attendees : roster) (i : nat) :
  findIndex wanted attendees = Some i →
  ∃ a, attendees !! i = Some a ∧ id a = wanted.
Proof.
  revert i. induction attendees as [|a rest IH]; intros i; [done|].
  cbn [findIndex]. destruct (strict_eq (id a) wanted) eqn:E.
  - intros [= <-]. exists a. split; [done|]. by apply strict_eq_true.
  - destruct (findIndex wanted rest) as [k|]; [|done].
    intros [= <-]. by apply IH.
Qed.

Lemma findIndex_None (wanted : value) (attendees : roster) :
  findIndex wanted attendees = None ↔ ∀ a, a ∈ attendees → id a ≠ wanted.
Proof.
  induction attendees as [|a rest IH]; cbn [findIndex].
  - split; [|done]. intros _ a Hin. by apply elem_of_nil in Hin.
  - destruct (strict_eq (id a) wanted) eqn:E.
    + split; [done|]. intros H. apply strict_eq_true in E.
      by destruct (H a (list_elem_of_here _ _)).
    + apply strict_eq_false in E.
      destruct (findIndex wanted rest) as [k|].
      * split; [done|]. intros H.
        assert (Some k = None) as Habs; [|done].
        apply IH. intros b Hb. apply H. by apply list_elem_of_further.
      * split; [|done]. intros _ b Hb.
        apply elem_of_cons in Hb as [->|Hb]; [done|].
        by apply (proj1 IH).
Qed.

Lemma findIndex_is_Some (wanted : value) (attendees : roster) :
  (∃ a, a ∈ attendees ∧ id a = wanted) →
  ∃ i, findIndex wanted attendees = Some i.
Proof.
  intros (a & Hin & Hid).
  destruct (findIndex wanted attendees) as [i|] eqn:E; [by exists i|].
  by destruct (proj1 (findIndex_None _ _) E a Hin).
Qed.

(** C8. An UPDATE delta whose new record's id matches a record of the
    roster replaces one record, at one position whose record has that id,
    by the record built from the delta, and leaves every other position and
    the length as they were. A delta whose id matches no record, a delta
    without a new record, and a delta whose event type is not UPDATE, leave
    the roster unchanged. *)
Theorem realtime_update_replaces_one_record
    (attendees : roster) (payload : Payload) :
  (∀ newRecord,
      eventType payload = VStr "UPDATE" →
      new payload = Some newRecord →
      (∃ a, a ∈ attendees ∧ id a = row_id newRecord) →
      ∃ i replaced,
        attendees !! i = Some replaced
        ∧ id replaced = row_id newRecord
        ∧ handleRealtimeUpdate attendees payload !! i
          = Some (recordOfRealtime newRecord)
        ∧ (∀ j, j ≠ i →
             handleRealtimeUpdate attendees payload !! j = attendees !! j)
        ∧ length (handleRealtimeUpdate attendees payload)
          = length attendees)
  ∧ (∀ newRecord,
      new payload = Some newRecord →
      (∀ a, a ∈ attendees → id a ≠ row_id newRecord) →
      handleRealtimeUpdate attendees payload = attendees)
  ∧ (new payload = None →
      handleRealtimeUpdate attendees payload = attendees)
  ∧ (eventType payload ≠ VStr "UPDATE" →
      handleRealtimeUpdate attendees payload = attendees).
Proof.
  unfold handleRealtimeUpdate. repeat split.
  - intros newRecord Hev Hnew Hmatch.
    destruct (findIndex_is_Some _ _ Hmatch) as [i Hi].
    destruct (findIndex_Some _ _ _ Hi) as (replaced & Hlook & Hid).
    exists i, replaced. rewrite Hev, Hnew, Hi. cbn.
    repeat split; [done|done| | |].
    + apply list_lookup_insert_eq. by eapply lookup_lt_Some.
    + intros j Hj. by apply list_lookup_insert_ne.
    + apply length_insert.
  - intros newRecord Hnew Hnone.
    apply findIndex_None in Hnone. rewrite Hnew, Hnone.
    by destruct (strict_eq _ _).
  - intros ->. by destruct (strict_eq _ _).
  - intros Hev. apply strict_eq_false in Hev. by rewrite Hev.
Qed.

(** Scenario C of the specification: a roster with and without id 7. *)
Definition guest (i : Z) (name : string) : Attendee :=
  mkAttendee (VNum i) (VStr "General") (VStr "") (VStr name) (VStr "")
    (VStr "") (VStr "") pending VNull (VNum (i + 1)).

Definition checkedInRow7 : Row :=
  mkRow (VNum 7) (VStr "Table 1") (VStr "VIP") (VStr "John Smith")
    (VStr "VIP Ticket") VUndef VUndef VUndef (VStr "checked-in")
    (VStr "2026-01-23T10:00:00Z") (VNum 8).

Definition updateOf7 : Payload :=
  mkPayload (VStr "UPDATE") (Some checkedInRow7) None.

Definition insertOf7 : Payload :=
  mkPayload (VStr "INSERT") (Some checkedInRow7) None.

Lemma realtime_update_replaces_one_record_witness :
  (∃ i replaced,
      [guest 3 "Ann"; guest 7 "John Smith"; guest 9 "Zoe"] !! i
        = Some replaced
      ∧ id replaced = VNum 7
      ∧ handleRealtimeUpdate
          [guest 3 "Ann"; guest 7 "John Smith"; guest 9 "Zoe"] updateOf7 !! i
        = Some (recordOfRealtime checkedInRow7)
      ∧ (∀ j, j ≠ i →
           handleRealtimeUpdate
             [guest 3 "Ann"; guest 7 "John Smith"; guest 9 "Zoe"] updateOf7
             !! j
           = [guest 3 "Ann"; guest 7 "John Smith"; guest 9 "Zoe"] !! j)
      ∧ length (handleRealtimeUpdate
                  [guest 3 "Ann"; guest 7 "John Smith"; guest 9 "Zoe"]
                  updateOf7) = 3%nat)
  ∧ handleRealtimeUpdate [guest 3 "Ann"; guest 9 "Zoe"] updateOf7
    = [guest 3 "Ann"; guest 9 "Zoe"]
  ∧ handleRealtimeUpdate [guest 3 "Ann"; guest 7 "John Smith"] insertOf7
    = [guest 3 "Ann"; guest 7 "John Smith"].
Proof.
  split; [|split].
  - apply (proj1 (realtime_update_replaces_one_record
                    [guest 3 "Ann"; guest 7 "John Smith"; guest 9 "Zoe"]
                    updateOf7) checkedInRow7);
      [reflexivity|reflexivity|].
    exists (guest 7 "John Smith"). split; [|reflexivity].
    apply list_elem_of_further, list_elem_of_here.
  - apply (proj1 (proj2 (realtime_update_replaces_one_record
                           [guest 3 "Ann"; guest 9 "Zoe"] updateOf7))
             checkedInRow7); [reflexivity|].
    intros a Ha.
    apply elem_of_cons in Ha as [->|Ha]; [discriminate|].
    apply elem_of_cons in Ha as [->|Ha]; [discriminate|].
    by apply elem_of_nil in Ha.
  - apply (proj2 (proj2 (proj2 (realtime_update_replaces_one_record
                           [guest 3 "Ann"; guest 7 "John Smith"] insertOf7)))).
    discriminate.
Defined.

End Realtime.

(** ** Row normalizers *)

Section RowNormalizers.

Lemma str_or_nonempty_l (a b : string) : a ≠ "" → str_or a b = a.
Proof. intros H. unfold str_or. by rewrite (proj2 (nonempty_true a) H). Qed.

Lemma str_or_empty_l (b : string) : str_or "" b = b.
Proof. done. Qed.

(** [normalizeAttendee] in closed form: its [null] branch is never taken,
    because the table number is never empty once its fallback has run. *)
Lemma normalizeAttendee_closed_form (values : list value) (rowIndex : nat) :
  GoogleSheetsIntegration.normalizeAttendee values rowIndex =
    Some (GoogleSheetsIntegration.mkSheetAttendee
            (str_or (column values 0) "General")
            (str_or (column values 1) (column values 3))
            (column values 2) (column values 3) "pending" rowIndex).
Proof.
  unfold GoogleSheetsIntegration.normalizeAttendee, str_or. cbn.
  destruct (nonempty (column values 1)) eqn:E1; cbn;
    destruct (nonempty (column values 3)) eqn:E3; cbn;
    destruct (nonempty (column values 0)) eqn:E0; cbn;
    rewrite ?E0, ?E1, ?E3; cbn; try done.
  all: apply nonempty_false in E1; apply nonempty_false in E3.
  all: by rewrite E1, E3.
Qed.

(** The roster of the adapter holds exactly the normalized rows whose name
    column is not empty. *)
Lemma sheet_roster_members ev (data : list (list value)) (a : Attendee) :
  a ∈ GoogleSheetsDataSource.normalizeAttendeeData ev data ↔
  ∃ i row, data !! i = Some row ∧ column row 2 ≠ ""
           ∧ a = GoogleSheetsDataSource.normalizeRow ev row i.
Proof.
  unfold GoogleSheetsDataSource.normalizeAttendeeData.
  rewrite list_elem_of_filter, elem_of_lookup_imap. split.
  - intros (Hname & i & row & -> & Hrow). exists i, row.
    split; [done|]. split; [|done].
    cbn in Hname. rewrite str_or_empty_r in Hname.
    by apply nonempty_true.
  - intros (i & row & Hrow & Hname & ->). split; [|by exists i, row].
    cbn. rewrite str_or_empty_r. by apply nonempty_true.
Qed.

Lemma validatedEmail_empty ev : GoogleSheetsDataSource.validatedEmail ev "" = "".
Proof. unfold GoogleSheetsDataSource.validatedEmail. by destruct ev. Qed.

(** The raw row of scenario B. *)
Definition janeDoeRow : list value :=
  [VStr ""; VStr ""; VStr "Jane Doe"; VStr "Standard"].

(** C7. Both normalizers apply the fallbacks. [normalizeAttendee] of the
    Google Sheets integration always yields a record, whose group name is
    the ticket type when the group column is empty and the ticket column is
    not, and whose table number is General when the table column is empty.
    Every record of the roster the Google Sheets adapter builds comes from a
    row of the data and has the same two fallbacks applied, and every row
    with a name yields such a record. The row of scenario B normalizes to
    group name Standard and table number General in both. *)
Theorem normalizers_apply_fallbacks (ev : option (string → Validation)) :
  (∀ values rowIndex, ∃ a,
      GoogleSheetsIntegration.normalizeAttendee values rowIndex = Some a
      ∧ (column values 1 = "" → column values 3 ≠ "" →
         GoogleSheetsIntegration.groupName a = column values 3)
      ∧ (column values 0 = "" →
         GoogleSheetsIntegration.tableNumber a = "General"))
  ∧ (∀ data a,
      a ∈ GoogleSheetsDataSource.normalizeAttendeeData ev data →
      ∃ i row, data !! i = Some row
        ∧ a = GoogleSheetsDataSource.normalizeRow ev row i
        ∧ (column row 1 = "" → column row 3 ≠ "" →
           groupName a = VStr (column row 3))
        ∧ (column row 0 = "" → tableNumber a = VStr "General"))
  ∧ (∀ data i row,
      data !! i = Some row → column row 2 ≠ "" →
      GoogleSheetsDataSource.normalizeRow ev row i
        ∈ GoogleSheetsDataSource.normalizeAttendeeData ev data)
  ∧ GoogleSheetsIntegration.normalizeAttendee janeDoeRow 2
    = Some (GoogleSheetsIntegration.mkSheetAttendee
              "General" "Standard" "Jane Doe" "Standard" "pending" 2)
  ∧ GoogleSheetsDataSource.normalizeAttendeeData ev [janeDoeRow]
    = [mkAttendee (VStr "gsheet_jane_doe_0") (VStr "General")
         (VStr "Standard") (VStr "Jane Doe") (VStr "Standard") (VStr "")
         (VStr "") pending VNull (VNum 2)].
Proof.
  split; [|split; [|split; [|split]]].
  - intros values rowIndex. eexists.
    split; [apply normalizeAttendee_closed_form|]. cbn. split.
    + intros -> Hticket. by rewrite str_or_empty_l.
    + by intros ->.
  - intros data a Hin.
    apply sheet_roster_members in Hin as (i & row & Hrow & _ & ->).
    exists i, row. split; [done|]. split; [done|].
    unfold GoogleSheetsDataSource.normalizeRow.
    cbn [groupName tableNumber]. rewrite !str_or_empty_r. split.
    + intros -> Hticket. rewrite str_or_empty_l.
      by rewrite (str_or_nonempty_l _ _ Hticket).
    + by intros ->.
  - intros data i row Hrow Hname. apply sheet_roster_members. eauto.
  - reflexivity.
  - unfold GoogleSheetsDataSource.normalizeAttendeeData. cbn.
    unfold GoogleSheetsDataSource.normalizeRow. cbn.
    by rewrite validatedEmail_empty.
Qed.

Lemma normalizers_apply_fallbacks_witness :
  (∃ a,
      GoogleSheetsIntegration.normalizeAttendee janeDoeRow 2 = Some a
      ∧ GoogleSheetsIntegration.groupName a = "Standard"
      ∧ GoogleSheetsIntegration.tableNumber a = "General")
  ∧ GoogleSheetsDataSource.normalizeRow None janeDoeRow 0
      ∈ GoogleSheetsDataSource.normalizeAttendeeData None [janeDoeRow].
Proof.
  split.
  - destruct (proj1 (normalizers_apply_fallbacks None) janeDoeRow 2)
      as (a & Ha & Hgroup & Htable).
    exists a. split; [exact Ha|]. split.
    + apply Hgroup; [reflexivity|discriminate].
    + apply Htable. reflexivity.
  - apply (proj1 (proj2 (proj2 (normalizers_apply_fallbacks None)))
             [janeDoeRow] 0%nat janeDoeRow); [reflexivity|discriminate].
Defined.

(** The two normalizers of keyed rows are not row normalizers of this kind:
    the CSV adapter's takes the group name as served (the upload handler has
    applied the fallbacks) and the database adapter's applies no fallback. *)
Example keyed_rows_keep_empty_group :
  groupName
    (CSVDataSource.normalizeAttendee
       (CSVDataSource.mkRaw VUndef (VStr "") (VStr "") (VStr "Jane Doe")
          (VStr "Standard") VUndef VUndef VUndef VUndef VUndef VUndef) 0)
  = VStr ""
  ∧ tableNumber
      (SupabaseDataSource.normalizeRow
         (SupabaseDataSource.mkRow (VNum 7) (VStr "") (VStr "")
            (VStr "Jane Doe") (VStr "Standard") VNull VNull VNull VNull
            VNull VNull))
    = VStr "".
Proof. by split. Qed.

(** The adapter drops every row whose name column is empty, so in
    particular every row whose table, group and name are all empty. *)
Lemma sheet_adapter_drops_nameless ev (data : list (list value)) :
  Forall (λ row, column row 2 = "") data →
  GoogleSheetsDataSource.normalizeAttendeeData ev data = [].
Proof.
  intros HF.
  destruct (GoogleSheetsDataSource.normalizeAttendeeData ev data)
    as [|a rest] eqn:E; [done|].
  assert (a ∈ GoogleSheetsDataSource.normalizeAttendeeData ev data) as Hin.
  { rewrite E. apply list_elem_of_here. }
  apply sheet_roster_members in Hin as (i & row & Hrow & Hname & _).
  rewrite Forall_forall in HF.
  destruct Hname. apply HF. by eapply list_elem_of_lookup_2.
Qed.

(** A sheet whose only data row has a table cell made of one space. *)
Definition blankSheet : list (list value) :=
  [[VStr "Table"; VStr "Group"; VStr "Name"; VStr "Ticket"];
   [VStr " "; VStr ""; VStr ""; VStr ""]].

(** C6. The row whose table, group, name and ticket are all empty is not
    dropped by [normalizeAttendee] of the Google Sheets integration: it
    yields a record with table number General; so does a sheet row whose
    cells are blank once trimmed, through [parseSheetRows]. (The adapter's
    [normalizeAttendeeData] does drop such rows.) *)
Theorem normalizeAttendee_keeps_empty_row :
  GoogleSheetsIntegration.normalizeAttendee
    [VStr ""; VStr ""; VStr ""; VStr ""] 2
  = Some (GoogleSheetsIntegration.mkSheetAttendee
            "General" "" "" "" "pending" 2)
  ∧ GoogleSheetsIntegration.parseSheetRows blankSheet
    = [GoogleSheetsIntegration.mkSheetAttendee "General" "" "" "" "pending" 2]
  ∧ GoogleSheetsDataSource.normalizeAttendeeData None
      [[VStr ""; VStr ""; VStr ""; VStr ""]] = [].
Proof. repeat split. Qed.

End RowNormalizers.

(** ** The check-in toggle *)

Section Toggle.
Import CheckIn.

Lemma flipped_checked_in (s : value) : s = checked_in → flipped s = pending.
Proof. by intros ->. Qed.

Lemma flipped_other (s : value) : s ≠ checked_in → flipped s = checked_in.
Proof.
  intros H. unfold flipped. by rewrite (proj2 (strict_eq_false _ _) H).
Qed.

(** The optimistic update of a checked-in record is an undo, of any other
    record a check-in stamped with the current time. *)
Lemma optimistic_undo (a : Attendee) (now : string) :
  status a = checked_in → optimistic a now = setStatus a pending VNull.
Proof. unfold optimistic. by intros ->. Qed.

Lemma optimistic_check_in (a : Attendee) (now : string) :
  status a ≠ checked_in →
  optimistic a now = setStatus a checked_in (VStr now).
Proof. intros H. unfold optimistic. by rewrite (flipped_other _ H). Qed.


(** What the error handler leaves: a failed check-in is undone exactly, a
    failed undo leaves the record checked in with no check-in time. *)
Lemma revert_after_check_in (a : Attendee) (now : string) :
  status a ≠ checked_in →
  revert (optimistic a now) (timestampFor (flipped (status a)) now)
  = setStatus a pending VNull.
Proof. intros E. by rewrite (optimistic_check_in _ _ E). Qed.

Lemma revert_after_undo (a : Attendee) (now : string) :
  status a = checked_in →
  revert (optimistic a now) (timestampFor (flipped (status a)) now)
  = setStatus a checked_in VNull.
Proof. intros E. rewrite (optimistic_undo _ _ E). by rewrite E. Qed.

(** Whatever the outcome, the toggle touches one position only. *)
Lemma toggleCheckIn_frame {A} (attendees : roster) (attendeeId : value)
    (now : string) (update : outcome A) (elements : gset string)
    (i j : nat) :
  findIndex attendeeId attendees = Some i → j ≠ i →
  toggleCheckIn attendees attendeeId now update elements !! j
  = attendees !! j.
Proof.
  intros Hi Hj. unfold toggleCheckIn. rewrite Hi.
  destruct (attendees !! i); [|done].
  destruct update; [destruct (updateStatistics elements)|];
    by apply list_lookup_insert_ne.
Qed.

(** A failed check-in of a pending record with no check-in time is rolled
    back to the roster as it was. *)
Lemma toggleCheckIn_rollback_of_check_in {A} (attendees : roster)
    (attendeeId : value) (now msg : string) (elements : gset string)
    (i : nat) (a : Attendee) :
  findIndex attendeeId attendees = Some i →
  attendees !! i = Some a →
  status a = pending → checkedInAt a = VNull →
  toggleCheckIn (A := A) attendees attendeeId now (Rejected msg) elements
  = attendees.
Proof.
  intros Hi Ha Hs Hc. unfold toggleCheckIn. rewrite Hi, Ha.
  rewrite revert_after_check_in by (by rewrite Hs).
  assert (setStatus a pending VNull = a) as ->.
  { destruct a; cbn in *. by subst. }
  by apply list_insert_id.
Qed.

(** A roster of two guests, the first checked in at ten. *)
Definition johnCheckedIn : Attendee :=
  mkAttendee (VStr "1") (VStr "Table 1") (VStr "VIP") (VStr "John Doe")
    (VStr "VIP Ticket") (VStr "") (VStr "") checked_in
    (VStr "2026-01-23T10:00:00Z") (VNum 2).

Definition janePending : Attendee :=
  mkAttendee (VStr "2") (VStr "General") (VStr "Standard") (VStr "Jane Doe")
    (VStr "Standard") (VStr "") (VStr "") pending VNull (VNum 3).

(** A document that has the four counters and the list of guests, and one
    whose check-in rate element is missing. *)
Definition checkInPage : gset string :=
  {[ "attendeeList"; "totalCount"; "checkedInCount"; "pendingCount";
     "checkInRate" ]}.

Definition pageWithoutRate : gset string :=
  {[ "attendeeList"; "totalCount"; "checkedInCount"; "pendingCount" ]}.

(** C1. Undoing the check-in of a checked-in record when [updateAttendee]
    rejects: the error handler leaves the record checked in but with no
    check-in time, so the record is not what it was before the optimistic
    update; the other record is untouched. This is so in every document. *)
Theorem toggleCheckIn_failed_undo_loses_checkedInAt :
  (∀ elements,
      toggleCheckIn (A := unit) [johnCheckedIn; janePending] (VStr "1")
        "2026-01-23T11:30:00Z" (Rejected "Network error") elements
      = [setStatus johnCheckedIn checked_in VNull; janePending])
  ∧ checkedInAt johnCheckedIn = VStr "2026-01-23T10:00:00Z"
  ∧ checkedInAt (setStatus johnCheckedIn checked_in VNull) = VNull
  ∧ setStatus johnCheckedIn checked_in VNull ≠ johnCheckedIn.
Proof. repeat split. discriminate. Qed.

End Toggle.

(** ** Status and check-in time *)

Section StatusInvariant.
Import CheckIn.














End StatusInvariant.

(** ** Failures of the backends *)

Section Failures.

Lemma requestFailed_cases {A} (r : outcome (Response A)) :
  requestFailed r = true →
  (∃ msg, r = Rejected msg)
  ∨ (∃ response, r = Fulfilled response ∧ ok response = false)
  ∨ (∃ response msg, r = Fulfilled response ∧ ok response = true
                     ∧ body response = Rejected msg).
Proof.
  destruct r as [response|msg]; cbn; [|by eauto].
  destruct (ok response) eqn:E; cbn; [|by eauto 6].
  destruct (body response) as [v|msg] eqn:Eb; [done|].
  intros _. right. right. by exists response, msg.
Qed.

(** Case analysis on the three ways a request fails. *)
Ltac failure_cases H :=
  let msg := fresh "msg" in
  let r := fresh "response" in
  let Hok := fresh "Hok" in
  let Hbody := fresh "Hbody" in
  destruct (requestFailed_cases _ H)
    as [[msg ->]|[(r & -> & Hok)|(r & msg & -> & Hok & Hbody)]];
  cbn; rewrite ?Hok, ?Hbody.

(** The CSV adapter answers a rejected check-in request with success. *)
Lemma csv_update_failure_reported_as_success :
  requestFailed
    (Fulfilled (mkResponse 400 "Bad Request"
                  (Fulfilled (mkUpdateResult VUndef)))) = true
  ∧ CSVDataSource.updateAttendee
      (Fulfilled (mkResponse 400 "Bad Request"
                    (Fulfilled (mkUpdateResult VUndef))))
    = Fulfilled (mkUpdateResult (VBool true))
  ∧ CSVDataSource.updateAttendee (Rejected "Failed to fetch")
    = Fulfilled (mkUpdateResult (VBool true)).
Proof. repeat split. Qed.

(** C4, amended. When the check-in request fails (the fetch fails, the
    status is not an ok one, or the body cannot be read) the Google Sheets
    adapter's [updateAttendee] rejects; the database adapter's rejects when
    no client is configured and when the query fails or reports an error;
    the CSV adapter's never rejects and answers every such failure with
    [{ success: true }]. *)
Theorem updateAttendee_failure_outcomes :
  (∀ post, requestFailed post = true →
      ∃ msg, GoogleSheetsDataSource.updateAttendee post = Rejected msg)
  ∧ (∀ configured query,
      configured = false ∨ SupabaseDataSource.queryFailed query = true →
      ∃ msg, SupabaseDataSource.updateAttendee configured query
             = Rejected msg)
  ∧ (∀ post, requestFailed post = true →
      CSVDataSource.updateAttendee post
      = Fulfilled (mkUpdateResult (VBool true)))
  ∧ (∀ post, ∃ result,
      CSVDataSource.updateAttendee post = Fulfilled result).
Proof.
  split; [|split; [|split]].
  - intros post Hfail. failure_cases Hfail; by eexists.
  - intros configured query [->|Hfail]; cbn; [by eexists|].
    unfold SupabaseDataSource.updateAttendee.
    destruct configured; cbn; [|by eexists].
    destruct query as [result|msg]; [|by eexists].
    cbn in Hfail. apply bool_decide_eq_true in Hfail as [error Herror].
    rewrite Herror. by eexists.
  - intros post Hfail. by failure_cases Hfail.
  - intros [response|msg]; cbn; [|by eexists].
    destruct (ok response); cbn; [|by eexists].
    destruct (body response); by eexists.
Qed.

Lemma updateAttendee_failure_outcomes_witness :
  (∃ msg,
      GoogleSheetsDataSource.updateAttendee
        (Fulfilled (mkResponse 400 "Bad Request"
                      (Fulfilled (mkUpdateResult VUndef))))
      = Rejected msg)
  ∧ (∃ msg,
      SupabaseDataSource.updateAttendee true
        (Fulfilled (SupabaseDataSource.mkQueryResult None
                      (Some "permission denied")))
      = Rejected msg)
  ∧ CSVDataSource.updateAttendee (Rejected "Failed to fetch")
    = Fulfilled (mkUpdateResult (VBool true)).
Proof.
  split; [|split].
  - apply (proj1 updateAttendee_failure_outcomes). reflexivity.
  - apply (proj1 (proj2 updateAttendee_failure_outcomes)).
    right. reflexivity.
  - apply (proj1 (proj2 (proj2 updateAttendee_failure_outcomes))).
    reflexivity.
Defined.

(** The CSV adapter answers a failed fetch, and a body that does not parse,
    with a fulfilled empty roster. *)
Lemma csv_load_failure_reported_as_empty :
  CSVDataSource.loadData (Rejected "Failed to fetch")
    (Rejected "Failed to fetch") = Fulfilled []
  ∧ CSVDataSource.loadData
      (Fulfilled (mkResponse 200 "OK" (Rejected "Unexpected token <")))
      (Fulfilled (mkResponse 200 "OK" (Fulfilled (jsonObject ∅))))
    = Fulfilled []
  ∧ CSVDataSource.loadData
      (Fulfilled (mkResponse 500 "Internal Server Error" (Fulfilled [])))
      (Rejected "Failed to fetch") = Fulfilled [].
Proof. repeat split. Qed.

Lemma withCheckins_nil checkins : withCheckins checkins [] = [].
Proof.
  unfold withCheckins. destruct checkins as [r|]; [|done].
  destruct (ok r); [|done]. by destruct (body r).
Qed.

(** C5, amended. [loadData] of the Google Sheets adapter rejects with the
    message that the URL is not configured when the sheet URL is missing,
    and rejects when the fetch of the sheet fails, answers a status that is
    not ok, or its text cannot be read; a text without data rows is no error
    and loads the empty roster. [loadData] of the database adapter rejects
    when no client is configured and when the query fails or reports an
    error. [loadData] of the CSV adapter never rejects: a failed
    fetch, a status that is not ok and a body that does not parse are all
    answered with the fulfilled empty roster. *)
Theorem loadData_failure_outcomes (ev : option (string → Validation)) :
  (∀ sheet checkins,
      GoogleSheetsDataSource.loadData ev "" sheet checkins
      = Rejected "Google Sheets URL not configured")
  ∧ (∀ sheetUrl sheet checkins,
      sheetUrl ≠ "" → requestFailed sheet = true →
      ∃ msg, GoogleSheetsDataSource.loadData ev sheetUrl sheet checkins
             = Rejected msg)
  ∧ (∀ sheetUrl response csvText checkins,
      sheetUrl ≠ "" → ok response = true →
      body response = Fulfilled csvText →
      GoogleSheetsDataSource.parseCsvData csvText = [] →
      GoogleSheetsDataSource.loadData ev sheetUrl (Fulfilled response)
        checkins = Fulfilled [])
  ∧ (∀ query,
      SupabaseDataSource.loadData false query
      = Rejected "Supabase not configured. Please provide URL and API key.")
  ∧ (∀ query,
      SupabaseDataSource.queryFailed query = true →
      ∃ msg, SupabaseDataSource.loadData true query = Rejected msg)
  ∧ (∀ rows checkins,
      requestFailed rows = true →
      CSVDataSource.loadData rows checkins = Fulfilled [])
  ∧ (∀ rows checkins, ∃ loaded,
      CSVDataSource.loadData rows checkins = Fulfilled loaded).
Proof.
  split; [|split; [|split; [|split; [|split; [|split]]]]].
  - done.
  - intros sheetUrl sheet checkins Hurl Hfail.
    unfold GoogleSheetsDataSource.loadData.
    rewrite (proj2 (nonempty_true _) Hurl). cbn [negb].
    failure_cases Hfail; by eexists.
  - intros sheetUrl response csvText checkins Hurl Hok Hbody Hrows.
    unfold GoogleSheetsDataSource.loadData.
    rewrite (proj2 (nonempty_true _) Hurl), Hok, Hbody, Hrows. cbn.
    by rewrite withCheckins_nil.
  - done.
  - intros [result|msg] Hfail; cbn; [|by eexists].
    cbn in Hfail. apply bool_decide_eq_true in Hfail as [error Herror].
    rewrite Herror. by eexists.
  - intros rows checkins Hfail. by failure_cases Hfail.
  - intros [response|msg] checkins; cbn; [|by eexists].
    destruct (ok response); cbn; [|by eexists].
    destruct (body response); by eexists.
Qed.

Lemma loadData_failure_outcomes_witness :
  (∃ msg,
      GoogleSheetsDataSource.loadData None
        "https://docs.google.com/spreadsheets/d/abc/edit"
        (Fulfilled (mkResponse 404 "Not Found" (Fulfilled "")))
        (Rejected "Failed to fetch")
      = Rejected msg)
  ∧ GoogleSheetsDataSource.loadData None
      "https://docs.google.com/spreadsheets/d/abc/edit"
      (Fulfilled (mkResponse 200 "OK" (Fulfilled "<html>Sign in</html>")))
      (Rejected "Failed to fetch")
    = Fulfilled []
  ∧ (∃ msg,
      SupabaseDataSource.loadData true (Rejected "Failed to fetch")
      = Rejected msg)
  ∧ CSVDataSource.loadData
      (Fulfilled (mkResponse 400 "Bad Request" (Rejected "not JSON")))
      (Rejected "Failed to fetch")
    = Fulfilled [].
Proof.
  split; [|split; [|split]].
  - apply (proj1 (proj2 (loadData_failure_outcomes None)));
      [discriminate|reflexivity].
  - apply (proj1 (proj2 (proj2 (loadData_failure_outcomes None)))
             _ _ "<html>Sign in</html>");
      [discriminate|reflexivity|reflexivity|reflexivity].
  - apply (proj1 (proj2 (proj2 (proj2 (proj2
             (loadData_failure_outcomes None)))))).
    reflexivity.
  - apply (proj1 (proj2 (proj2 (proj2 (proj2 (proj2
             (loadData_failure_outcomes None))))))).
    reflexivity.
Defined.

End Failures.

(** ** Late responses after a source switch *)

Section LateResponses.
Import DataSourceManager.

Lemma find_inflight (s : State) (l : Load) :
  l ∈ inflight s → ∃ l', List.find (isLoad (load_id l)) (inflight s) = Some l'.
Proof.
  intros Hin.
  destruct (List.find (isLoad (load_id l)) (inflight s)) as [l'|] eqn:E;
    [by exists l'|].
  apply list_elem_of_In in Hin.
  pose proof (List.find_none _ _ E l Hin) as Hno.
  unfold isLoad in Hno. by rewrite bool_decide_eq_false in Hno.
Qed.

Lemma init_wellFormed (type : SourceType) (interval : Z) :
  wellFormed (init type interval).
Proof. unfold wellFormed. cbn. constructor. Qed.

Lemma step_wellFormed (s : State) (e : Event) :
  wellFormed s → wellFormed (step s e).
Proof.
  unfold wellFormed. intros HF. destruct e as [|newType confirmed interval|n r].
  - cbn. destruct (pollingInterval s); [|done].
    destruct (currentSource s) as [source|]; [|done]. cbn.
    unfold startLoad. apply Forall_app. split.
    + eapply Forall_impl; [exact HF|]. cbn. lia.
    + repeat constructor; cbn; lia.
  - cbn. case_bool_decide; [done|]. destruct confirmed; [|done]. cbn.
    unfold startLoad. apply Forall_app. split.
    + eapply Forall_impl; [exact HF|]. cbn. lia.
    + repeat constructor; cbn; lia.
  - cbn. destruct (List.find (isLoad n) (inflight s)) as [found|]; [|done].
    cbn.
    rewrite Forall_forall in HF. apply Forall_forall. intros l Hl.
    apply list_elem_of_In, List.filter_In in Hl as [Hl _].
    apply HF. by apply list_elem_of_In.
Qed.

Lemma run_wellFormed (events : list Event) (s : State) :
  wellFormed s → wellFormed (run s events).
Proof.
  revert s. induction events as [|e events IH]; intros s Hs; [done|].
  cbn. apply IH. by apply step_wellFormed.
Qed.

(** The CSV source is polled, the timer fires, and before the response
    arrives the user switches to the Google Sheets source. *)
Definition switchedWhilePolling : State :=
  run (init csv 5000) [Tick; SwitchDataSource googlesheets true 5000].

(** The response of the CSV source then arrives and replaces the roster of
    the new source; it does so also after the first load of the new source
    has been received. *)
Lemma late_response_replaces_roster :
  inflight switchedWhilePolling
    = [mkLoad 0 csv 0; mkLoad 1 googlesheets 1]
  ∧ currentSource switchedWhilePolling = Some googlesheets
  ∧ generation switchedWhilePolling = 1%nat
  ∧ attendees switchedWhilePolling = []
  ∧ attendees (step switchedWhilePolling
                 (Settle 0 (Fulfilled [johnCheckedIn; janePending])))
    = [johnCheckedIn; janePending]
  ∧ attendees (run switchedWhilePolling
                 [Settle 1 (Fulfilled [guest 7 "John Smith"]);
                  Settle 0 (Fulfilled [johnCheckedIn; janePending])])
    = [johnCheckedIn; janePending].
Proof. repeat split. Qed.

(** C2, amended. There is no generation guard: when a load that was started
    before the last source switch settles, the roster is replaced by the
    data of that late response whenever the data is not empty; only an
    empty or a rejected late response leaves the roster unchanged. *)
Theorem late_response_discarded_only_if_empty
    (s : State) (l : Load) (result : outcome roster) :
  l ∈ inflight s → late s l →
  (∀ data, result = Fulfilled data → data ≠ [] →
      attendees (step s (Settle (load_id l) result)) = data)
  ∧ (result = Fulfilled [] ∨ (∃ msg, result = Rejected msg) →
      attendees (step s (Settle (load_id l) result)) = attendees s).
Proof.
  intros Hin _. destruct (find_inflight s l Hin) as [l' Hfind].
  cbn. rewrite Hfind. cbn. split.
  - intros data -> Hdata. cbn. by destruct data.
  - by intros [->|[msg ->]].
Qed.

Lemma late_response_discarded_only_if_empty_witness :
  attendees (step switchedWhilePolling
               (Settle 0 (Fulfilled [johnCheckedIn; janePending])))
    = [johnCheckedIn; janePending]
  ∧ attendees (step switchedWhilePolling (Settle 0 (Fulfilled [])))
    = attendees switchedWhilePolling.
Proof.
  assert (mkLoad 0 csv 0 ∈ inflight switchedWhilePolling) as Hin.
  { apply list_elem_of_here. }
  assert (late switchedWhilePolling (mkLoad 0 csv 0)) as Hlate.
  { unfold late. vm_compute. lia. }
  split.
  - apply (proj1 (late_response_discarded_only_if_empty
                    switchedWhilePolling (mkLoad 0 csv 0)
                    (Fulfilled [johnCheckedIn; janePending]) Hin Hlate)
             [johnCheckedIn; janePending]); [reflexivity|discriminate].
  - apply (proj2 (late_response_discarded_only_if_empty
                    switchedWhilePolling (mkLoad 0 csv 0)
                    (Fulfilled []) Hin Hlate)).
    left. reflexivity.
Defined.

End LateResponses.

(** ** Ids within one roster *)

Section RosterIds.
Import GoogleSheetsDataSource.

Lemma string_app_nil (s : string) : "" +:+ s = s.
Proof. done. Qed.

Lemma string_app_cons (c : ascii) (a b : string) :
  String c a +:+ b = String c (a +:+ b).
Proof. done. Qed.

Lemma string_all_app (P : ascii → bool) (a b : string) :
  string_all P (a +:+ b) = string_all P a && string_all P b.
Proof.
  induction a as [|c a IH]; [done|].
  rewrite string_app_cons. cbn. by rewrite IH, andb_assoc.
Qed.

(** The decimal numeral of a number is made of digits. *)
Lemma pretty_N_go_all (P : ascii → bool) (x : N) (s : string) :
  (∀ d, P (pretty_N_char d) = true) →
  string_all P s = true → string_all P (pretty_N_go x s) = true.
Proof.
  intros Hdigit. revert s.
  induction (N.lt_wf_0 x) as [x _ IH]; intros s Hs.
  assert (x = 0 ∨ 0 < x)%N as [->|Hpos] by lia.
  - by rewrite pretty_N_go_0.
  - rewrite pretty_N_go_step by done. apply IH.
    + by apply N.div_lt.
    + cbn. by rewrite Hdigit, Hs.
Qed.

Lemma pretty_nat_no_underscore (n : nat) :
  string_all (λ c, negb (is_char "_" c)) (pretty n) = true.
Proof.
  unfold pretty, pretty_nat, pretty, pretty_N.
  case_decide; [done|].
  apply pretty_N_go_all; [|done].
  intros d. unfold pretty_N_char. by repeat case_match.
Qed.

Lemma underscore_in_middle (a b : string) :
  string_all (λ c, negb (is_char "_" c)) (a +:+ String "_" b) = false.
Proof.
  rewrite string_all_app. apply andb_false_iff. right. done.
Qed.

(** What follows the last underscore of a string is determined by it. *)
Lemma last_segment_inj (a b d1 d2 : string) :
  string_all (λ c, negb (is_char "_" c)) d1 = true →
  string_all (λ c, negb (is_char "_" c)) d2 = true →
  a +:+ "_" +:+ d1 = b +:+ "_" +:+ d2 → d1 = d2.
Proof.
  intros H1 H2. rewrite !(string_app_cons "_"), !string_app_nil.
  revert b. induction a as [|c a IH]; intros [|c' b] E;
    rewrite ?string_app_cons, ?string_app_nil in E.
  - by injection E.
  - injection E as _ E. rewrite E in H1.
    by rewrite (underscore_in_middle b d2) in H1.
  - injection E as _ E. rewrite <- E in H2.
    by rewrite (underscore_in_middle a d1) in H2.
  - injection E as _ E. by apply (IH b).
Qed.

(** The id of a sheet row ends in its index. *)
Lemma rowId_shape (n : string) (i : nat) :
  ∃ prefix, rowId n i = prefix +:+ "_" +:+ pretty i.
Proof.
  unfold rowId. destruct (nonempty n).
  - by exists ("gsheet_" +:+ normalizedName n).
  - by exists "gsheet".
Qed.

Lemma rowId_index_inj (n m : string) (i j : nat) :
  rowId n i = rowId m j → i = j.
Proof.
  destruct (rowId_shape n i) as [p ->], (rowId_shape m j) as [q ->].
  intros E. apply (inj pretty).
  eapply last_segment_inj; [..|exact E]; apply pretty_nat_no_underscore.
Qed.

End RosterIds.

(** ** The check-in overlay and the rosters the adapters load *)

Section LoadedRosters.
Import GoogleSheetsDataSource.

Lemma applyCheckin_id (checkinData : CheckinData) (a : Attendee) :
  id (applyCheckin checkinData a) = id a.
Proof.
  unfold applyCheckin. destruct (entries checkinData !! _); [done|].
  by case_bool_decide.
Qed.


Lemma applyCheckins_ids (checkinData : CheckinData) (attendees : roster) :
  id <$> applyCheckins checkinData attendees = id <$> attendees.
Proof.
  unfold applyCheckins. rewrite <- list_fmap_compose.
  apply list_fmap_ext. intros i a _. apply applyCheckin_id.
Qed.

Lemma withCheckins_ids checkins (attendees : roster) :
  id <$> withCheckins checkins attendees = id <$> attendees.
Proof.
  unfold withCheckins. destruct checkins as [r|]; [|done].
  destruct (ok r); [|done].
  destruct (body r); [apply applyCheckins_ids|done].
Qed.







Lemma sheet_rows_distinct ev (data : list (list value)) :
  NoDup (imap (λ index row, normalizeRow ev row index) data).
Proof.
  apply NoDup_alt. intros i j a Hi Hj.
  rewrite list_lookup_imap in Hi, Hj.
  destruct (data !! i) as [ri|]; [|done].
  destruct (data !! j) as [rj|]; [|done].
  cbn in Hi, Hj. rewrite <- Hi in Hj. apply (inj Some) in Hj.
  apply (f_equal rowIndex) in Hj. cbn in Hj. injection Hj. lia.
Qed.

(** X2. The ids of a roster of the Google Sheets adapter are pairwise
    distinct: in what the normalizer returns for any data, and in every
    roster [loadData] is fulfilled with, whatever the check-in map. *)
Theorem sheet_roster_ids_distinct (ev : option (string → Validation)) :
  (∀ data, NoDup (id <$> normalizeAttendeeData ev data))
  ∧ (∀ sheetUrl sheet checkins loaded,
      loadData ev sheetUrl sheet checkins = Fulfilled loaded →
      NoDup (id <$> loaded)).
Proof.
  assert (∀ data, NoDup (id <$> normalizeAttendeeData ev data)) as Hnorm.
  { intros data. apply NoDup_fmap_2_strong.
    - intros a b Ha Hb Hid.
      apply sheet_roster_members in Ha as (i & ri & Hi & _ & ->).
      apply sheet_roster_members in Hb as (j & rj & Hj & _ & ->).
      rewrite !normalizeRow_id in Hid. injection Hid as Hid.
      apply rowId_index_inj in Hid as ->.
      rewrite Hi in Hj. by injection Hj as ->.
    - apply NoDup_filter, sheet_rows_distinct. }
  split; [exact Hnorm|].
  intros sheetUrl sheet checkins loaded. unfold loadData.
  destruct (nonempty sheetUrl); [|done]. cbn.
  destruct sheet as [r|]; [|done].
  destruct (ok r); [|done]. cbn.
  destruct (body r) as [csvText|]; [|done].
  intros [= <-]. rewrite withCheckins_ids. apply Hnorm.
Qed.

Lemma sheet_roster_ids_distinct_witness :
  NoDup (id <$> [mkAttendee (VStr "gsheet_jane_doe_0") (VStr "T1")
                   (VStr "G") (VStr "Jane Doe") (VStr "") (VStr "")
                   (VStr "") pending VNull (VNum 2);
                 mkAttendee (VStr "gsheet_jane_doe_1") (VStr "T2")
                   (VStr "G") (VStr "Jane Doe") (VStr "") (VStr "")
                   (VStr "") pending VNull (VNum 3)]).
Proof.
  apply (proj2 (sheet_roster_ids_distinct None)
           "https://docs.google.com/spreadsheets/d/abc/edit"
           (Fulfilled (mkResponse 200 "OK"
              (Fulfilled (unlines ["Table,Group,Name";
                                   "T1,G,Jane Doe"; "T2,G,Jane Doe"]))))
           (Rejected "Failed to fetch")).
  vm_compute. reflexivity.
Defined.

(** X3. The ids the CSV adapter gives to rows that bring none are pairwise
    distinct, and the roster has one record per row, in the order of the
    rows. *)
Theorem csv_roster_ids_distinct (data : list CSVDataSource.RawAttendee) :
  Forall CSVDataSource.noId data →
  NoDup (id <$> CSVDataSource.normalizeAttendeeData data)
  ∧ length (CSVDataSource.normalizeAttendeeData data) = length data.
Proof.
  intros HF. split.
  - assert (id <$> CSVDataSource.normalizeAttendeeData data
            = (λ i, VStr ("csv_" +:+ pretty i)) <$> seq 0 (length data))
      as -> by apply (csv_ids_from data 0 HF).
    apply NoDup_fmap_2; [|apply NoDup_seq].
    intros i j [= E]. rewrite !string_app_nil in E.
    by apply (inj pretty).
  - apply length_imap.
Qed.

Lemma csv_roster_ids_distinct_witness :
  NoDup (id <$> CSVDataSource.normalizeAttendeeData csvNoIds)
  ∧ length (CSVDataSource.normalizeAttendeeData csvNoIds) = 2%nat.
Proof.
  apply (csv_roster_ids_distinct csvNoIds). repeat constructor.
Defined.

(** X4. No record of a roster of the Google Sheets adapter has an empty
    name, table number or group name, and its row index is at least 2. *)
Theorem sheet_roster_fields_never_empty
    (ev : option (string → Validation)) (data : list (list value)) :
  Forall (λ a,
      (∃ name, attendeeName a = VStr name ∧ name ≠ "")
      ∧ (∃ table, tableNumber a = VStr table ∧ table ≠ "")
      ∧ (∃ group, groupName a = VStr group ∧ group ≠ "")
      ∧ ∃ n, rowIndex a = VNum n ∧ (2 ≤ n)%Z)
    (normalizeAttendeeData ev data).
Proof.
  apply Forall_forall. intros a Hin.
  apply sheet_roster_members in Hin as (i & row & _ & Hname & ->).
  unfold normalizeRow. cbn. rewrite !str_or_empty_r.
  repeat split.
  - by eexists.
  - eexists. split; [done|]. unfold str_or.
    destruct (nonempty (column row 0)) eqn:E; [|done].
    by apply nonempty_true.
  - eexists. split; [done|]. unfold str_or at 1.
    destruct (nonempty (str_or _ _)) eqn:E; [|done].
    by apply nonempty_true.
  - eexists. split; [done|]. lia.
Qed.

End LoadedRosters.

(** ** Updates of one record *)

Section OneRecord.
Import CheckIn.

Lemma findIndex_insert (wanted : value) (attendees : roster) (i : nat)
    (a : Attendee) :
  findIndex wanted attendees = Some i → id a = wanted →
  findIndex wanted (<[i := a]> attendees) = Some i.
Proof.
  revert i. induction attendees as [|b rest IH]; intros i; [done|].
  cbn [findIndex]. destruct (strict_eq (id b) wanted) eqn:E.
  - intros [= <-] Ha.
    change (<[0:=a]> (b :: rest)) with (a :: rest). cbn [findIndex].
    by rewrite (proj2 (strict_eq_true _ _) Ha).
  - destruct (findIndex wanted rest) as [k|] eqn:Ek; [|done].
    intros [= <-] Ha.
    change (<[S k:=a]> (b :: rest)) with (b :: <[k:=a]> rest).
    cbn [findIndex]. rewrite E. by rewrite (IH k).
Qed.

Lemma insert_same_id (attendees : roster) (i : nat) (a b : Attendee) :
  attendees !! i = Some a → id b = id a →
  id <$> <[i := b]> attendees = id <$> attendees.
Proof.
  intros Hi Hid. rewrite list_fmap_insert. apply list_insert_id.
  by rewrite list_lookup_fmap, Hi, Hid.
Qed.

(** X5. Applying a push delta never changes the ids or the length of the
    roster, and applying the same delta a second time changes nothing
    more. *)
Theorem handleRealtimeUpdate_idempotent
    (attendees : roster) (payload : Payload) :
  id <$> handleRealtimeUpdate attendees payload = id <$> attendees
  ∧ length (handleRealtimeUpdate attendees payload) = length attendees
  ∧ handleRealtimeUpdate (handleRealtimeUpdate attendees payload) payload
    = handleRealtimeUpdate attendees payload.
Proof.
  unfold handleRealtimeUpdate.
  destruct (strict_eq (eventType payload) (VStr "UPDATE")) eqn:Ev;
    [|done].
  destruct (new payload) as [newRecord|]; [|done].
  destruct (findIndex (SupabaseDataSource.row_id newRecord) attendees)
    as [i|] eqn:Ei; [|by rewrite ?Ei].
  destruct (findIndex_Some _ _ _ Ei) as (a & Ha & Hid).
  split; [|split].
  - by apply (insert_same_id _ _ a).
  - apply length_insert.
  - rewrite (findIndex_insert _ _ _ _ Ei) by done.
    apply list_insert_insert_eq.
Qed.

Lemma toggleCheckIn_ids {A} (attendees : roster) (attendeeId : value)
    (now : string) (update : outcome A) (elements : gset string) :
  id <$> toggleCheckIn attendees attendeeId now update elements
  = id <$> attendees.
Proof.
  unfold toggleCheckIn.
  destruct (findIndex attendeeId attendees) as [i|]; [|done].
  destruct (attendees !! i) as [a|] eqn:Ha; [|done].
  destruct update; [destruct (updateStatistics elements)|];
    by apply (insert_same_id _ _ a).
Qed.

(** X6. The check-in toggle never changes the ids of the roster, whatever
    the outcome of the update and whatever the document, and leaves the
    roster alone when no record has the id. On a roster whose records are
    all pending with no check-in time, a check-in followed by an undo of
    the same id, both fulfilled and both in a document that has the four
    counters, gives back the roster exactly. In a document that lacks one
    of the counters the handler rolls every check-in of such a roster back,
    also when the update was fulfilled: the roster is left as it was
    although the check-in has been stored. *)
Theorem toggleCheckIn_then_undo (attendees : roster) (attendeeId : value) :
  (∀ (A : Type) time (update : outcome A) elements,
      id <$> toggleCheckIn attendees attendeeId time update elements
      = id <$> attendees)
  ∧ (∀ (A : Type) time (update : outcome A) elements,
      (∀ a, a ∈ attendees → id a ≠ attendeeId) →
      toggleCheckIn attendees attendeeId time update elements = attendees)
  ∧ (∀ (A B : Type) first second (saved : A) (undone : B) before after,
      updateStatistics before = Some tt →
      updateStatistics after = Some tt →
      Forall (λ a, status a = pending ∧ checkedInAt a = VNull) attendees →
      toggleCheckIn
        (toggleCheckIn attendees attendeeId first (Fulfilled saved) before)
        attendeeId second (Fulfilled undone) after
      = attendees)
  ∧ (∀ (A : Type) time (update : outcome A) elements,
      updateStatistics elements = None →
      Forall (λ a, status a = pending ∧ checkedInAt a = VNull) attendees →
      toggleCheckIn attendees attendeeId time update elements = attendees).
Proof.
  split; [|split; [|split]].
  - intros A time update elements. apply toggleCheckIn_ids.
  - intros A time update elements Hnone. unfold toggleCheckIn.
    by rewrite (proj2 (findIndex_None _ _) Hnone).
  - intros A B first second saved undone before after Hbefore Hafter HF.
    unfold toggleCheckIn at 2. rewrite Hbefore.
    destruct (findIndex attendeeId attendees) as [i|] eqn:Ei.
    2: { unfold toggleCheckIn. by rewrite Ei. }
    destruct (findIndex_Some _ _ _ Ei) as (a & Ha & Hid). rewrite Ha.
    rewrite Forall_forall in HF.
    destruct (HF a (list_elem_of_lookup_2 _ _ _ Ha)) as [Hs Hc].
    rewrite optimistic_check_in by (by rewrite Hs).
    unfold toggleCheckIn. rewrite Hafter.
    rewrite (findIndex_insert _ _ _ _ Ei) by done.
    rewrite list_lookup_insert_eq by (by eapply lookup_lt_Some).
    rewrite optimistic_undo by done.
    rewrite list_insert_insert_eq. apply list_insert_id.
    rewrite Ha. f_equal. destruct a; cbn in *. by subst.
  - intros A time update elements Hthrows HF.
    destruct (findIndex attendeeId attendees) as [i|] eqn:Ei.
    2: { unfold toggleCheckIn. by rewrite Ei. }
    destruct (findIndex_Some _ _ _ Ei) as (a & Ha & Hid).
    rewrite Forall_forall in HF.
    destruct (HF a (list_elem_of_lookup_2 _ _ _ Ha)) as [Hs Hc].
    unfold toggleCheckIn. rewrite Ei, Ha, Hthrows.
    rewrite revert_after_check_in by (by rewrite Hs).
    assert (setStatus a pending VNull = a) as ->.
    { destruct a; cbn in *. by subst. }
    destruct update; by apply list_insert_id.
Qed.

Lemma toggleCheckIn_then_undo_witness :
  toggleCheckIn
    (toggleCheckIn [guest 3 "Ann"; guest 7 "John Smith"] (VNum 7)
       "2026-01-23T10:00:00Z" (Fulfilled tt) checkInPage)
    (VNum 7) "2026-01-23T10:05:00Z" (Fulfilled tt) checkInPage
  = [guest 3 "Ann"; guest 7 "John Smith"]
  ∧ toggleCheckIn [guest 3 "Ann"; guest 7 "John Smith"] (VStr "7")
      "2026-01-23T10:00:00Z" (Fulfilled tt) checkInPage
    = [guest 3 "Ann"; guest 7 "John Smith"]
  ∧ toggleCheckIn [guest 3 "Ann"; guest 7 "John Smith"] (VNum 7)
      "2026-01-23T10:00:00Z" (Fulfilled tt) pageWithoutRate
    = [guest 3 "Ann"; guest 7 "John Smith"].
Proof.
  split; [|split].
  - apply (proj1 (proj2 (proj2 (toggleCheckIn_then_undo
                           [guest 3 "Ann"; guest 7 "John Smith"] (VNum 7)))));
      [vm_compute; reflexivity..|].
    repeat constructor.
  - apply (proj1 (proj2 (toggleCheckIn_then_undo
                           [guest 3 "Ann"; guest 7 "John Smith"] (VStr "7")))).
    intros a Ha.
    apply elem_of_cons in Ha as [->|Ha]; [discriminate|].
    apply elem_of_cons in Ha as [->|Ha]; [discriminate|].
    by apply elem_of_nil in Ha.
  - apply (proj2 (proj2 (proj2 (toggleCheckIn_then_undo
                           [guest 3 "Ann"; guest 7 "John Smith"] (VNum 7)))));
      [vm_compute; reflexivity|].
    repeat constructor.
Defined.

End OneRecord.

(** ** What moves the roster and what is polled *)

Section ManagerRuns.
Import DataSourceManager.

Lemma step_quiet (s : State) (e : Event) :
  quiet e = true →
  attendees (step s e) = attendees s
  ∧ currentSource (step s e) = currentSource s
  ∧ generation (step s e) = generation s.
Proof.
  destruct e as [|newType confirmed interval|n [data|msg]]; cbn.
  - intros _. destruct (pollingInterval s); [|done].
    by destruct (currentSource s) eqn:Ec; rewrite ?Ec.
  - intros Hq. apply negb_true_iff in Hq as ->.
    by case_bool_decide.
  - intros Hq. apply bool_decide_eq_true in Hq as ->.
    by destruct (List.find _ _).
  - intros _. by destruct (List.find _ _).
Qed.

(** X7. The roster, the active source and the number of switches change
    only through a confirmed switch or a load that brings at least one
    record: any run made of timer ticks, refused switches and loads that
    settle rejected or empty leaves all three as they were. In particular a
    source that answers with an empty roster never clears what is shown. *)
Theorem quiet_run_keeps_roster (s : State) (events : list Event) :
  Forall (λ e, quiet e = true) events →
  attendees (run s events) = attendees s
  ∧ currentSource (run s events) = currentSource s
  ∧ generation (run s events) = generation s.
Proof.
  intros HF. revert s. induction HF as [|e events He _ IH]; intros s.
  - done.
  - change (run s (e :: events)) with (run (step s e) events).
    destruct (IH (step s e)) as (Ha & Hc & Hg).
    destruct (step_quiet s e He) as (Ha' & Hc' & Hg').
    by rewrite Ha, Hc, Hg.
Qed.

(** A roster on screen, the poll answering empty. *)
Definition showingGuests : State :=
  mkState (Some csv) true [guest 3 "Ann"; guest 7 "John Smith"] 0 [] 0.

Lemma quiet_run_keeps_roster_witness :
  attendees (run showingGuests
               [Tick; Settle 0 (Fulfilled []);
                SwitchDataSource supabase false 0;
                Tick; Settle 1 (Rejected "Failed to fetch")])
  = [guest 3 "Ann"; guest 7 "John Smith"].
Proof.
  apply (quiet_run_keeps_roster showingGuests). repeat constructor.
Defined.

(** The timer is armed only while the current source is one that is
    polled. *)
Definition timerMatchesSource (s : State) : Prop :=
  pollingInterval s = true →
  ∃ t, currentSource s = Some t ∧ supportsPolling t = true.

Lemma step_timerMatchesSource (s : State) (e : Event) :
  timerMatchesSource s → timerMatchesSource (step s e).
Proof.
  unfold timerMatchesSource. intros Hs.
  destruct e as [|newType confirmed interval|n result]; cbn.
  - destruct (pollingInterval s) eqn:Ep; [|by rewrite Ep].
    destruct (currentSource s) eqn:Ec; [|by rewrite Ep, Ec]. cbn. done.
  - case_bool_decide; [done|]. destruct confirmed; [|done]. cbn.
    intros [_ Hpoll]%andb_true_iff. by exists newType.
  - by destruct (List.find _ _).
Qed.

Lemma run_timerMatchesSource (events : list Event) (s : State) :
  timerMatchesSource s → timerMatchesSource (run s events).
Proof.
  revert s. induction events as [|e events IH]; intros s Hs; [done|].
  change (run s (e :: events)) with (run (step s e) events).
  by apply IH, step_timerMatchesSource.
Qed.

(** X8. The database source is never polled: in every state reached from
    [init], while the current source is the database one the timer firing
    starts no load and changes nothing. After a confirmed switch the timer
    is armed exactly when the new source is one that is polled and the
    configured interval is not negative (an interval of zero falls back to
    five seconds). *)
Theorem database_source_never_polled :
  (∀ type interval events,
      currentSource (run (init type interval) events) = Some supabase →
      step (run (init type interval) events) Tick
      = run (init type interval) events)
  ∧ (∀ s newType interval,
      currentSource s ≠ Some newType →
      pollingInterval (step s (SwitchDataSource newType true interval))
      = supportsPolling newType && (0 <=? interval)%Z).
Proof.
  split.
  - intros type interval events Hsource.
    assert (timerMatchesSource (run (init type interval) events)) as Hinv.
    { apply run_timerMatchesSource. unfold timerMatchesSource, init. cbn.
      intros [_ Hpoll]%andb_true_iff. by exists type. }
    unfold step.
    destruct (pollingInterval (run (init type interval) events)) eqn:Ep;
      [|done].
    destruct (Hinv Ep) as (t & Ht & Hpoll).
    rewrite Hsource in Ht. by injection Ht as <-.
  - intros s newType interval Hne. cbn.
    rewrite bool_decide_eq_false_2 by done. cbn.
    rewrite andb_comm. f_equal.
    destruct (interval =? 0)%Z eqn:E0.
    + apply Z.eqb_eq in E0 as ->. done.
    + apply Z.eqb_neq in E0.
      destruct (0 <? interval)%Z eqn:E1, (0 <=? interval)%Z eqn:E2;
        try done; lia.
Qed.

Lemma database_source_never_polled_witness :
  step (run (init csv 5000)
          [Tick; SwitchDataSource supabase true 0; Settle 0 (Fulfilled [])])
       Tick
  = run (init csv 5000)
      [Tick; SwitchDataSource supabase true 0; Settle 0 (Fulfilled [])]
  ∧ pollingInterval
      (step (init csv 5000) (SwitchDataSource googlesheets true (-1)))
    = false.
Proof.
  split.
  - apply (proj1 database_source_never_polled csv 5000%Z). reflexivity.
  - rewrite (proj2 database_source_never_polled); [reflexivity|discriminate].
Defined.

End ManagerRuns.

(** ** Lines of a sheet *)

Section SheetLines.
Import GoogleSheetsDataSource.

Lemma string_app_nil_r (s : string) : s +:+ "" = s.
Proof.
  induction s as [|c s IH]; [done|]. by rewrite string_app_cons, IH.
Qed.

Lemma string_app_assoc (a b c : string) : (a +:+ b) +:+ c = a +:+ b +:+ c.
Proof.
  induction a as [|x a IH]; [done|]. by rewrite !string_app_cons, IH.
Qed.

Lemma split_not_nil (sep : ascii) (s : string) : split sep s ≠ [].
Proof.
  destruct s as [|c r]; [done|]. cbn.
  case_bool_decide; [done|]. by destruct (split sep r).
Qed.

(** [values] only ever grows at its end. *)
Lemma parseLine_go_values (line : string) (values : list string)
    (currentValue : string) (inQuotes : bool) :
  parseLine_go line values currentValue inQuotes
  = (values ++ parseLine_go line [] currentValue inQuotes)%list.
Proof.
  revert values currentValue inQuotes.
  induction line as [|c line IH]; intros values cur q; [done|].
  cbn [parseLine_go]. case_bool_decide; [apply IH|].
  destruct (bool_decide (c = ","%char) && negb q); [|apply IH].
  rewrite IH, (IH [trim cur]). by rewrite app_assoc.
Qed.

(** The first piece of a split, with what was read before it in front. *)
Definition continued (currentValue : string) (pieces : list string)
    : list string :=
  match pieces with
  | [] => [currentValue]
  | piece :: rest => (currentValue +:+ piece) :: rest
  end.

Lemma continued_empty (pieces : list string) :
  pieces ≠ [] → continued "" pieces = pieces.
Proof. by destruct pieces. Qed.

Lemma parseLine_go_unquoted (line : string) (currentValue : string) :
  string_all (λ c, negb (is_char "034" c)) line = true →
  parseLine_go line [] currentValue false
  = trim <$> continued currentValue (split "," line).
Proof.
  revert currentValue. induction line as [|c line IH]; intros cur Hq.
  - cbn. by rewrite string_app_nil_r.
  - cbn in Hq. apply andb_true_iff in Hq as [Hc Hq].
    unfold is_char in Hc. apply negb_true_iff in Hc.
    cbn [parseLine_go split]. rewrite Hc. clear Hc.
    case_bool_decide as Hcomma; cbn [andb negb].
    + rewrite parseLine_go_values, (IH "" Hq).
      rewrite continued_empty by apply split_not_nil.
      cbn. by rewrite string_app_nil_r.
    + rewrite (IH _ Hq).
      destruct (split "," line) as [|h t] eqn:E;
        [by destruct (split_not_nil _ _ E)|].
      cbn. by rewrite string_app_assoc.
Qed.

(** Inside quotes every character but the quote is taken as it is. *)
Lemma parseLine_go_quoted (field rest : string) (values : list string)
    (currentValue : string) :
  string_all (λ c, negb (is_char "034" c)) field = true →
  parseLine_go (field +:+ rest) values currentValue true
  = parseLine_go rest values (currentValue +:+ field) true.
Proof.
  revert currentValue. induction field as [|c field IH]; intros cur Hq.
  - by rewrite string_app_nil, string_app_nil_r.
  - cbn in Hq. apply andb_true_iff in Hq as [Hc Hq].
    unfold is_char in Hc. apply negb_true_iff in Hc.
    rewrite string_app_cons. cbn [parseLine_go]. rewrite Hc.
    rewrite andb_false_r, (IH _ Hq). by rewrite string_app_assoc.
Qed.

(** X9. A line without quotes is parsed into its comma-separated pieces,
    each trimmed: [parseLine] and [split] followed by [trim] agree on it. A
    field in quotes is one value even when it holds commas: a line that
    starts with a quoted field, then a comma, gives the trimmed field
    followed by the values of the rest of the line. *)
Theorem parseLine_splits_at_unquoted_commas :
  (∀ line,
      string_all (λ c, negb (is_char "034" c)) line = true →
      parseLine line = trim <$> split "," line)
  ∧ (∀ field rest,
      string_all (λ c, negb (is_char "034" c)) field = true →
      parseLine (String "034" (field +:+ String "034" (String "," rest)))
      = trim field :: parseLine rest).
Proof.
  split.
  - intros line Hq. unfold parseLine.
    rewrite (parseLine_go_unquoted _ _ Hq).
    by rewrite continued_empty by apply split_not_nil.
  - intros field rest Hq. unfold parseLine. cbn [parseLine_go].
    rewrite bool_decide_eq_true_2 by done. cbn [negb].
    rewrite (parseLine_go_quoted _ _ _ _ Hq). cbn [parseLine_go].
    rewrite bool_decide_eq_true_2 by done. cbn [negb parseLine_go].
    rewrite bool_decide_eq_false_2 by done.
    rewrite bool_decide_eq_true_2 by done. cbn [andb negb].
    by rewrite parseLine_go_values.
Qed.

Lemma parseLine_splits_at_unquoted_commas_witness :
  parseLine "Table 1, VIP ,John Smith,VIP Ticket"
  = trim <$> split "," "Table 1, VIP ,John Smith,VIP Ticket"
  ∧ parseLine (String "034" ("Smith, John" +:+
                 String "034" (String "," "VIP,Table 1")))
    = ["Smith, John"; "VIP"; "Table 1"].
Proof.
  split.
  - apply (proj1 parseLine_splits_at_unquoted_commas). reflexivity.
  - apply (proj2 parseLine_splits_at_unquoted_commas "Smith, John").
    reflexivity.
Defined.

End SheetLines.

(** ** The Google Sheets integration *)

Section Integration.
Import GoogleSheetsIntegration.

Lemma omap_imap_total {A B} (f : nat → A → option B) (g : nat → A → B)
    (l : list A) :
  (∀ i x, f i x = Some (g i x)) →
  omap (λ y, y) (imap f l) = imap g l.
Proof.
  revert f g. induction l as [|x l IH]; intros f g Hfg; [done|].
  rewrite !imap_cons. cbn. rewrite Hfg. f_equal.
  apply IH. intros i y. apply Hfg.
Qed.

Lemma numbered_from_two {A} (g : nat → A → SheetAttendee) (l : list A) :
  (∀ i x, rowIndex (g i x) = (i + 2)%nat) →
  rowIndex <$> imap g l = seq 2 (length l).
Proof.
  intros Hg. rewrite fmap_imap.
  rewrite (imap_ext _ (λ i _, (2 + i)%nat) l).
  - rewrite imap_seq_0. apply (fmap_add_seq 2 0).
  - intros i x _. cbn. rewrite Hg. lia.
Qed.

(** X10. Neither reader of the integration drops a row it has kept, and
    both number the records 2, 3, 4, ... in the order of the kept rows:
    [parseSheetRows] yields one record for each row after the header whose
    first three cells are not all falsy, the manual CSV reader one record
    for each non-blank line after the first line. The row index is thus the
    position among the kept rows, not the row of the sheet. Every record
    has a table number and is pending. *)
Theorem integration_numbers_kept_rows :
  (∀ rows,
      rowIndex <$> parseSheetRows rows
      = seq 2 (length (filter (λ row, hasData row = true) (drop 1 rows))))
  ∧ (∀ csvText,
      rowIndex <$> parseCsvDataManually csvText
      = seq 2 (length (filter (λ line, nonempty (trim line) = true)
                         (drop 1 (split "010" csvText)))))
  ∧ (∀ rows,
      Forall (λ a, tableNumber a ≠ "" ∧ status a = "pending")
        (parseSheetRows rows))
  ∧ (∀ csvText,
      Forall (λ a, tableNumber a ≠ "" ∧ status a = "pending")
        (parseCsvDataManually csvText)).
Proof.
  assert (∀ t, str_or t "General" ≠ "") as Htable.
  { intros t. unfold str_or. destruct (nonempty t) eqn:E; [|done].
    by apply nonempty_true. }
  split; [|split; [|split]].
  - intros rows. unfold parseSheetRows.
    erewrite omap_imap_total
      by (intros i row; apply normalizeAttendee_closed_form).
    by apply numbered_from_two.
  - intros csvText. unfold parseCsvDataManually. cbv zeta.
    erewrite omap_imap_total
      by (intros i line; apply normalizeAttendee_closed_form).
    by apply numbered_from_two.
  - intros rows. unfold parseSheetRows.
    erewrite omap_imap_total
      by (intros i row; apply normalizeAttendee_closed_form).
    apply Forall_forall. intros a Ha.
    apply elem_of_lookup_imap in Ha as (i & row & -> & _).
    split; [apply Htable|done].
  - intros csvText. unfold parseCsvDataManually. cbv zeta.
    erewrite omap_imap_total
      by (intros i line; apply normalizeAttendee_closed_form).
    apply Forall_forall. intros a Ha.
    apply elem_of_lookup_imap in Ha as (i & row & -> & _).
    split; [apply Htable|done].
Qed.

Lemma syncFromGoogleSheet_skips_failed before rest :
  Forall methodFailed before →
  syncFromGoogleSheet (before ++ rest)%list = syncFromGoogleSheet rest.
Proof.
  induction 1 as [|[data|msg] before Hfail _ IH]; [done|..]; cbn.
  - cbn in Hfail. by rewrite Hfail.
  - done.
Qed.

(** X11. [syncFromGoogleSheet] is fulfilled with the rows of the first
    method, in the configured order, that brings at least one row: it is
    fulfilled with [data] exactly when [data] is not empty and is what some
    method brings while every method before it fails; it never is fulfilled
    with no rows. It is rejected, with the message that all methods failed,
    exactly when every method is rejected or brings no row. *)
Theorem syncFromGoogleSheet_first_success
    (attempts : list (outcome (list SheetAttendee))) :
  (∀ data,
      syncFromGoogleSheet attempts = Fulfilled data ↔
      data ≠ [] ∧ ∃ before after,
        attempts = (before ++ Fulfilled data :: after)%list
        ∧ Forall methodFailed before)
  ∧ (∀ msg,
      syncFromGoogleSheet attempts = Rejected msg ↔
      msg = allMethodsFailed ∧ Forall methodFailed attempts).
Proof.
  induction attempts as [|[d|m] attempts [IHf IHr]].
  - split.
    + intros data. split; [done|].
      intros (_ & before & after & E & _). by destruct before.
    + intros msg. cbn. split.
      * intros [= <-]. by split.
      * by intros [-> _].
  - cbn [syncFromGoogleSheet].
    destruct (0 <? length d)%nat eqn:Hlen.
    + apply Nat.ltb_lt in Hlen. split.
      * intros data. split.
        -- intros [= <-]. split; [|by exists [], attempts].
           intros ->. cbn in Hlen. lia.
        -- intros (Hne & before & after & E & HF).
           destruct before as [|b before]; [by injection E as ->|].
           injection E as Eb E. subst b. apply Forall_cons in HF as [Hb _].
           unfold methodFailed in Hb. subst d. cbn in Hlen. lia.
      * intros msg. split; [done|]. intros [_ HF].
        apply Forall_cons in HF as [Hb _]. unfold methodFailed in Hb.
        subst d. cbn in Hlen. lia.
    + apply Nat.ltb_ge in Hlen.
      assert (d = []) as -> by (destruct d; [done|cbn in Hlen; lia]).
      split.
      * intros data. rewrite IHf. split.
        -- intros (Hne & before & after & -> & HF). split; [done|].
           exists (Fulfilled [] :: before), after. split; [done|].
           by constructor.
        -- intros (Hne & before & after & E & HF). split; [done|].
           destruct before as [|b before]; [by injection E as <-|].
           injection E as Eb E. subst b. apply Forall_cons in HF as [_ HF].
           by exists before, after.
      * intros msg. rewrite IHr. split.
        -- intros [-> HF]. split; [done|]. by constructor.
        -- intros [-> HF]. apply Forall_cons in HF as [_ HF]. by split.
  - cbn [syncFromGoogleSheet]. split.
    + intros data. rewrite IHf. split.
      * intros (Hne & before & after & -> & HF). split; [done|].
        exists (Rejected m :: before), after. split; [done|].
        by constructor.
      * intros (Hne & before & after & E & HF). split; [done|].
        destruct before as [|b before]; [done|].
        injection E as Eb E. subst b. apply Forall_cons in HF as [_ HF].
        by exists before, after.
    + intros msg. rewrite IHr. split.
      * intros [-> HF]. split; [done|]. by constructor.
      * intros [-> HF]. apply Forall_cons in HF as [_ HF]. by split.
Qed.

End Integration.

(** ** Saving a roster to the database *)

Section SaveData.
Import SupabaseDataSource.

Lemma batchAt_length (data : roster) (i : nat) :
  (i < length data)%nat →
  (1 ≤ length (batchAt data i) ≤ batchSize)%nat.
Proof.
  intros Hi. unfold batchAt, batchSize.
  rewrite length_fmap, length_take, length_drop. lia.
Qed.

Lemma batchAt_next (data : roster) (i : nat) :
  (batchAt data i ++ (toInsertRow <$> drop (i + batchSize) data))%list
  = toInsertRow <$> drop i data.
Proof.
  unfold batchAt. rewrite <- fmap_app. f_equal.
  rewrite <- drop_drop. apply take_drop.
Qed.

Lemma insertFrom_sends (fuel : nat) (data : roster)
    (insert : nat → outcome (QueryResult unit)) (i k : nat) :
  (length data - i ≤ fuel)%nat →
  Forall (λ batch, (1 ≤ length batch ≤ batchSize)%nat)
    (insertFrom fuel data insert i k).1
  ∧ concat (insertFrom fuel data insert i k).1
      `prefix_of` (toInsertRow <$> drop i data)
  ∧ ((insertFrom fuel data insert i k).2 = Fulfilled tt →
     concat (insertFrom fuel data insert i k).1
     = toInsertRow <$> drop i data)
  ∧ ((∀ n, succeeded (insert n)) →
     (insertFrom fuel data insert i k).2 = Fulfilled tt).
Proof.
  revert i k. induction fuel as [|fuel IH]; intros i k Hfuel.
  - cbn. rewrite drop_ge by lia. by split; [constructor|].
  - cbn [insertFrom]. destruct (i <? length data)%nat eqn:Hi.
    2: { apply Nat.ltb_ge in Hi. cbn. rewrite drop_ge by lia.
         by split; [constructor|]. }
    apply Nat.ltb_lt in Hi.
    pose proof (batchAt_length data i Hi) as Hlen.
    assert (concat [batchAt data i]
              `prefix_of` (toInsertRow <$> drop i data)) as Hone.
    { exists (toInsertRow <$> drop (i + batchSize) data).
      rewrite <- batchAt_next. cbn [concat]. by rewrite app_nil_r. }
    destruct (insert k) as [result|error] eqn:Ek.
    2: { cbn [fst snd]. split; [|split; [|split]].
         - by apply Forall_singleton.
         - done.
         - done.
         - intros Hall. destruct (Hall k) as (r & Hr & _). congruence. }
    destruct (qerror result) as [error|] eqn:Eq.
    { cbn [fst snd]. split; [|split; [|split]].
      - by apply Forall_singleton.
      - done.
      - done.
      - intros Hall. destruct (Hall k) as (r & Hr & Hq). congruence. }
    destruct (IH (i + batchSize)%nat (S k)) as (Hsizes & Hpre & Hall & Hok).
    { unfold batchSize. lia. }
    destruct (insertFrom fuel data insert (i + batchSize) (S k))
      as [sent ended].
    cbn [fst snd] in *. split; [|split; [|split]].
    + by constructor.
    + rewrite <- batchAt_next. cbn [concat]. by apply prefix_app.
    + intros Hend. cbn [concat]. rewrite (Hall Hend). apply batchAt_next.
    + done.
Qed.

(** X12. [saveData] sends the roster in batches of at most a hundred rows,
    none empty, in the order of the roster. What it has sent is always a
    beginning of the roster; when the promise is fulfilled everything has
    been sent, each row once. It is fulfilled whenever the delete settles
    fulfilled, even if the delete reports an error, and every insert goes
    through; without a configured client nothing is sent. *)
Theorem saveData_sends_batches (data : roster)
    (deleted : outcome (QueryResult unit))
    (insert : nat → outcome (QueryResult unit)) :
  Forall (λ batch, (1 ≤ length batch ≤ 100)%nat)
    (saveData true data deleted insert).1
  ∧ concat (saveData true data deleted insert).1
      `prefix_of` (toInsertRow <$> data)
  ∧ ((saveData true data deleted insert).2 = Fulfilled tt →
     concat (saveData true data deleted insert).1 = toInsertRow <$> data)
  ∧ ((∃ result, deleted = Fulfilled result) →
     (∀ n, succeeded (insert n)) →
     (saveData true data deleted insert).2 = Fulfilled tt)
  ∧ (saveData false data deleted insert).1 = [].
Proof.
  unfold saveData. cbn [negb].
  destruct deleted as [result|error].
  - destruct (insertFrom_sends (length data) data insert 0 0)
      as (Hsizes & Hpre & Hall & Hok); [lia|].
    rewrite drop_0 in Hpre, Hall.
    split; [exact Hsizes|]. split; [exact Hpre|]. split; [exact Hall|].
    split; [|done]. intros _. exact Hok.
  - cbn [fst snd concat]. split; [constructor|].
    split; [apply prefix_nil|]. split; [done|].
    split; [by intros [result [=]]|done].
Qed.

(** A roster of 250 guests, and a database whose inserts all go through. *)
Definition manyGuests : roster :=
  (λ i, guest (Z.of_nat i) "Guest") <$> seq 0 250.

Definition everyInsertWorks (n : nat) : outcome (QueryResult unit) :=
  Fulfilled (mkQueryResult (Some tt) None).

Lemma saveData_sends_batches_witness :
  (saveData true manyGuests
     (Fulfilled (mkQueryResult None (Some "permission denied")))
     everyInsertWorks).2 = Fulfilled tt
  ∧ concat (saveData true manyGuests
              (Fulfilled (mkQueryResult (Some tt) None))
              everyInsertWorks).1
    = toInsertRow <$> manyGuests.
Proof.
  split.
  - apply (proj1 (proj2 (proj2 (proj2
             (saveData_sends_batches manyGuests _ everyInsertWorks))))).
    + by eexists.
    + intros n. by eexists.
  - apply (proj1 (proj2 (proj2
             (saveData_sends_batches manyGuests _ everyInsertWorks)))).
    vm_compute. reflexivity.
Defined.

End SaveData.

(** ** Colours *)

Section Colours.
Import Config.
Open Scope Z_scope.

Lemma clamp_byte (x : Z) : 0 ≤ clamp x ≤ 255.
Proof.
  unfold clamp. destruct (255 <? x) eqn:E1; [lia|].
  destruct (x <? 0) eqn:E2; lia.
Qed.

Lemma clamp_of_byte (x : Z) : 0 ≤ x ≤ 255 → clamp x = x.
Proof.
  intros Hx. unfold clamp.
  destruct (255 <? x) eqn:E1; [lia|]. destruct (x <? 0) eqn:E2; lia.
Qed.

Lemma land_shiftl_low (x y k : Z) :
  0 ≤ k → 0 ≤ y < 2 ^ k → Z.land (Z.shiftl x k) y = 0.
Proof.
  intros Hk Hy. apply Z.bits_inj'. intros n Hn.
  rewrite Z.land_spec, Z.bits_0.
  destruct (decide (n < k)) as [Hlow|Hhigh].
  - by rewrite Z.shiftl_spec_low.
  - apply andb_false_iff. right.
    destruct (decide (y = 0)) as [->|Hy0]; [apply Z.bits_0|].
    apply Z.bits_above_log2; [lia|].
    apply Z.log2_lt_pow2; [lia|].
    apply Z.lt_le_trans with (2 ^ k); [lia|].
    apply Z.pow_le_mono_r; lia.
Qed.

Lemma lor_shiftl_low (x y k : Z) :
  0 ≤ k → 0 ≤ y < 2 ^ k → Z.lor (Z.shiftl x k) y = x * 2 ^ k + y.
Proof.
  intros Hk Hy. pose proof (land_shiftl_low x y k Hk Hy) as Hland.
  rewrite <- (Z.lxor_lor _ _ Hland), <- (Z.add_nocarry_lxor _ _ Hland).
  by rewrite Z.shiftl_mul_pow2.
Qed.

(** The three channels packed into one number. *)
Lemma pack_bytes (r g b : Z) :
  0 ≤ r ≤ 255 → 0 ≤ g ≤ 255 → 0 ≤ b ≤ 255 →
  Z.lor (Z.lor (Z.shiftl r 16) (Z.shiftl g 8)) b = r * 65536 + g * 256 + b.
Proof.
  intros Hr Hg Hb.
  rewrite (lor_shiftl_low r (Z.shiftl g 8) 16);
    [|lia|rewrite Z.shiftl_mul_pow2 by lia; lia].
  rewrite Z.shiftl_mul_pow2 by lia.
  replace (r * 2 ^ 16 + g * 2 ^ 8) with (Z.shiftl (r * 256 + g) 8)
    by (rewrite Z.shiftl_mul_pow2 by lia; lia).
  rewrite lor_shiftl_low; lia.
Qed.

Lemma string_length_app (a b : string) :
  String.length (a +:+ b) = (String.length a + String.length b)%nat.
Proof.
  induction a as [|c a IH]; [done|].
  rewrite string_app_cons. cbn. by rewrite IH.
Qed.

Lemma zeros_snoc (k : nat) : zeros k +:+ "0" = zeros (S k).
Proof.
  induction k as [|k IH]; [done|].
  cbn [zeros]. by rewrite string_app_cons, IH.
Qed.

Lemma zeros_length (k : nat) : String.length (zeros k) = k.
Proof. induction k as [|k IH]; [done|]. cbn. by rewrite IH. Qed.

Lemma lastDigits_length (k : nat) (n : Z) :
  String.length (lastDigits k n) = k.
Proof.
  revert n. induction k as [|k IH]; intros n; [done|].
  cbn [lastDigits]. rewrite string_length_app, IH. cbn. lia.
Qed.

Lemma lastDigits_zero (k : nat) : lastDigits k 0 = zeros k.
Proof.
  induction k as [|k IH]; [done|].
  cbn [lastDigits]. change (0 / 16) with 0. rewrite IH.
  apply zeros_snoc.
Qed.

(** Digits beyond the size of the number are zeros. *)
Lemma lastDigits_more (j k : nat) (n : Z) :
  0 ≤ n < 16 ^ Z.of_nat k →
  lastDigits (j + k) n = zeros j +:+ lastDigits k n.
Proof.
  revert n. induction k as [|k IH]; intros n Hn.
  - assert (n = 0) as -> by (cbn in Hn; lia).
    rewrite Nat.add_0_r, lastDigits_zero. cbn [lastDigits].
    by rewrite string_app_nil_r.
  - rewrite Nat.add_succ_r. cbn [lastDigits]. rewrite IH.
    + by rewrite string_app_assoc.
    + rewrite Nat2Z.inj_succ, Z.pow_succ_r in Hn by lia.
      split; [apply Z.div_pos; lia|].
      apply Z.div_lt_upper_bound; lia.
Qed.

Lemma dropZeros_zeros (j : nat) (s : string) :
  dropZeros (zeros j +:+ s) = dropZeros s.
Proof. induction j as [|j IH]; [done|]. by cbn. Qed.

Lemma dropZeros_length (s : string) :
  (String.length (dropZeros s) ≤ String.length s)%nat.
Proof.
  induction s as [|c s IH]; [done|]. cbn.
  case_bool_decide; cbn; lia.
Qed.

Lemma pad_dropZeros (s : string) :
  padStart (String.length s) (dropZeros s) = s.
Proof.
  unfold padStart. induction s as [|c s IH]; [done|]. cbn [dropZeros].
  case_bool_decide as Hc.
  - subst c. pose proof (dropZeros_length s) as Hlen.
    cbn [String.length].
    replace (S (String.length s) - String.length (dropZeros s))%nat
      with (S (String.length s - String.length (dropZeros s))) by lia.
    cbn [zeros]. by rewrite string_app_cons, IH.
  - by rewrite Nat.sub_diag.
Qed.

(** A numeral padded to [k] digits is the last [k] digits of the number. *)
Lemma padStart_toString16 (k : nat) (n : Z) :
  (1 ≤ k)%nat → 0 ≤ n < 16 ^ Z.of_nat k →
  padStart k (toString16 n) = lastDigits k n.
Proof.
  intros Hk Hn. unfold toString16.
  destruct (n <=? 0) eqn:E0.
  - assert (n = 0) as -> by lia. rewrite lastDigits_zero.
    destruct k as [|k]; [lia|]. unfold padStart. cbn [String.length].
    replace (S k - 1)%nat with k by lia. apply zeros_snoc.
  - apply Z.leb_gt in E0.
    set (K := S (Z.to_nat (Z.log2 n))).
    assert (n < 16 ^ Z.of_nat K) as HK.
    { apply Z.lt_le_trans with (2 ^ Z.of_nat K).
      - unfold K. rewrite Nat2Z.inj_succ, Z2Nat.id by apply Z.log2_nonneg.
        by apply Z.log2_spec.
      - apply Z.pow_le_mono_l. lia. }
    assert (dropZeros (lastDigits K n) = dropZeros (lastDigits k n)) as ->.
    { destruct (decide (K ≤ k)%nat) as [Hle|Hgt].
      - replace k with ((k - K) + K)%nat at 1 by lia.
        rewrite lastDigits_more by lia. by rewrite dropZeros_zeros.
      - replace K with ((K - k) + k)%nat at 1 by lia.
        rewrite lastDigits_more by lia. by rewrite dropZeros_zeros. }
    rewrite <- (lastDigits_length k n) at 1. apply pad_dropZeros.
Qed.

Lemma lastDigits_channels (r g b : Z) :
  0 ≤ r ≤ 255 → 0 ≤ g ≤ 255 → 0 ≤ b ≤ 255 →
  lastDigits 6 (r * 65536 + g * 256 + b) = hex2 r +:+ hex2 g +:+ hex2 b.
Proof.
  intros Hr Hg Hb. cbn [lastDigits]. unfold hex2.
  rewrite !Z.div_div by lia. cbn [Z.mul Pos.mul].
  rewrite !string_app_nil, !string_app_cons, !string_app_nil.
  assert (∀ x y, x = y → hexChar x = hexChar y) as Hdigit
    by (by intros x y ->).
  repeat (apply (f_equal2 String);
          [apply Hdigit; Z.to_euclidean_division_equations; lia|]).
  done.
Qed.

(** X13. Whatever the colour text and the amount, [adjustColor] returns six
    lower-case hexadecimal digits, two for each of three channel values
    between 0 and 255, after a [#] exactly when the colour starts with one:
    also for a text that is no colour at all. *)
Theorem adjustColor_always_six_digits (color : string) (amount : Z) :
  ∃ r g b,
    0 ≤ r ≤ 255 ∧ 0 ≤ g ≤ 255 ∧ 0 ≤ b ≤ 255
    ∧ adjustColor color amount
      = (if startsWithPound color then "#" else "")
        +:+ hex2 r +:+ hex2 g +:+ hex2 b.
Proof.
  unfold adjustColor.
  set (num := toInt32 _).
  set (r := clamp (Z.shiftr num 16 + amount)).
  set (g := clamp (Z.land (Z.shiftr num 8) 255 + amount)).
  set (b := clamp (Z.land num 255 + amount)).
  pose proof (clamp_byte (Z.shiftr num 16 + amount)) as Hr.
  pose proof (clamp_byte (Z.land (Z.shiftr num 8) 255 + amount)) as Hg.
  pose proof (clamp_byte (Z.land num 255 + amount)) as Hb.
  fold r in Hr. fold g in Hg. fold b in Hb.
  exists r, g, b. repeat split; try lia.
  rewrite pack_bytes by done.
  rewrite (padStart_toString16 6) by (cbn; lia).
  by rewrite lastDigits_channels.
Qed.

Lemma hexDigit_facts (c : ascii) (d : Z) :
  hexDigitValue c = Some d →
  0 ≤ d < 16 ∧ Ascii.is_space c = false
  ∧ c ≠ "-"%char ∧ c ≠ "+"%char ∧ c ≠ "x"%char ∧ c ≠ "X"%char.
Proof.
  destruct c as [[] [] [] [] [] [] [] []]; intros H; vm_compute in H;
    try discriminate; injection H as <-;
    (split; [lia|]); repeat split; discriminate.
Qed.

Lemma toInt32_small (v : Z) : 0 ≤ v < 2 ^ 31 → toInt32 (Some v) = v.
Proof. intros Hv. unfold toInt32. rewrite Z.mod_small; lia. Qed.

Lemma parseInt16_six (c1 c2 c3 c4 c5 c6 : ascii) (r g b : Z) :
  writesByte c1 c2 r → writesByte c3 c4 g → writesByte c5 c6 b →
  0 ≤ r ≤ 255 ∧ 0 ≤ g ≤ 255 ∧ 0 ≤ b ≤ 255
  ∧ parseInt16
      (String c1 (String c2 (String c3 (String c4 (String c5
         (String c6 ""))))))
    = Some (r * 65536 + g * 256 + b).
Proof.
  intros (d1 & d2 & H1 & H2 & ->) (d3 & d4 & H3 & H4 & ->)
    (d5 & d6 & H5 & H6 & ->).
  destruct (hexDigit_facts _ _ H1) as (R1 & Hsp & Hm & Hp & _).
  destruct (hexDigit_facts _ _ H2) as (R2 & _ & _ & _ & Hx & HX).
  destruct (hexDigit_facts _ _ H3) as (R3 & _).
  destruct (hexDigit_facts _ _ H4) as (R4 & _).
  destruct (hexDigit_facts _ _ H5) as (R5 & _).
  destruct (hexDigit_facts _ _ H6) as (R6 & _).
  repeat split; try lia.
  unfold parseInt16. cbn [trimStart]. rewrite Hsp.
  unfold skipSign.
  rewrite (bool_decide_eq_false_2 _ Hm), (bool_decide_eq_false_2 _ Hp).
  unfold skipRadixPrefix.
  rewrite (bool_decide_eq_false_2 _ Hx), (bool_decide_eq_false_2 _ HX).
  rewrite andb_false_r.
  cbn [hexPrefix]. rewrite H1. cbn [hexPrefix]. rewrite H2.
  cbn [hexPrefix]. rewrite H3. cbn [hexPrefix]. rewrite H4.
  cbn [hexPrefix]. rewrite H5. cbn [hexPrefix]. rewrite H6.
  cbn [hexPrefix default]. unfold Datatypes.id. f_equal. lia.
Qed.

Lemma channels_of_number (r g b : Z) :
  0 ≤ r ≤ 255 → 0 ≤ g ≤ 255 → 0 ≤ b ≤ 255 →
  Z.shiftr (toInt32 (Some (r * 65536 + g * 256 + b))) 16 = r
  ∧ Z.land (Z.shiftr (toInt32 (Some (r * 65536 + g * 256 + b))) 8) 255 = g
  ∧ Z.land (toInt32 (Some (r * 65536 + g * 256 + b))) 255 = b.
Proof.
  intros Hr Hg Hb. rewrite toInt32_small by lia.
  change 255 with (Z.ones 8). rewrite !Z.land_ones by lia.
  rewrite !Z.shiftr_div_pow2 by lia.
  repeat split; Z.to_euclidean_division_equations; lia.
Qed.

(** X14. For a colour written with six hexadecimal digits, in either case,
    with or without a leading [#], [adjustColor] adds the amount to each of
    the three channels, keeps each sum between 0 and 255, and writes the
    result with two lower-case digits for each channel. With the amount 0 it
    gives the colour back in lower case. *)
Theorem adjustColor_shifts_channels
    (c1 c2 c3 c4 c5 c6 : ascii) (r g b amount : Z) :
  writesByte c1 c2 r → writesByte c3 c4 g → writesByte c5 c6 b →
  adjustColor
    (String "#" (String c1 (String c2 (String c3 (String c4 (String c5
       (String c6 ""))))))) amount
  = "#" +:+ hex2 (clamp (r + amount)) +:+ hex2 (clamp (g + amount))
    +:+ hex2 (clamp (b + amount))
  ∧ adjustColor
      (String c1 (String c2 (String c3 (String c4 (String c5
         (String c6 "")))))) amount
    = hex2 (clamp (r + amount)) +:+ hex2 (clamp (g + amount))
      +:+ hex2 (clamp (b + amount))
  ∧ adjustColor
      (String "#" (String c1 (String c2 (String c3 (String c4 (String c5
         (String c6 ""))))))) 0
    = "#" +:+ hex2 r +:+ hex2 g +:+ hex2 b.
Proof.
  intros Hr Hg Hb.
  destruct (parseInt16_six _ _ _ _ _ _ _ _ _ Hr Hg Hb)
    as (Br & Bg & Bb & Hparse).
  destruct (channels_of_number r g b Br Bg Bb) as (Er & Eg & Eb).
  assert (startsWithPound
            (String c1 (String c2 (String c3 (String c4 (String c5
               (String c6 "")))))) = false) as Hnopound.
  { destruct Hr as (h & l & H1 & _). cbn.
    apply bool_decide_eq_false. intros ->. by vm_compute in H1. }
  assert (∀ amount',
    padStart 6
      (toString16
         (Z.lor (Z.lor (Z.shiftl (clamp (r + amount')) 16)
                   (Z.shiftl (clamp (g + amount')) 8))
            (clamp (b + amount'))))
    = hex2 (clamp (r + amount')) +:+ hex2 (clamp (g + amount'))
      +:+ hex2 (clamp (b + amount'))) as Hprint.
  { intros amount'.
    pose proof (clamp_byte (r + amount')).
    pose proof (clamp_byte (g + amount')).
    pose proof (clamp_byte (b + amount')).
    rewrite pack_bytes by done.
    rewrite (padStart_toString16 6) by (cbn; lia).
    by rewrite lastDigits_channels. }
  split; [|split].
  - unfold adjustColor. cbn [startsWithPound slice1].
    rewrite bool_decide_eq_true_2 by done.
    rewrite Hparse, Er, Eg, Eb. by rewrite Hprint.
  - unfold adjustColor. rewrite Hnopound.
    rewrite Hparse, Er, Eg, Eb. by rewrite Hprint.
  - unfold adjustColor. cbn [startsWithPound slice1].
    rewrite bool_decide_eq_true_2 by done.
    rewrite Hparse, Er, Eg, Eb, Hprint.
    by rewrite !Z.add_0_r, !clamp_of_byte.
Qed.

Lemma adjustColor_shifts_channels_witness :
  adjustColor "#5AC1ee" (-20) = "#46adda"
  ∧ adjustColor "5AC1ee" 80 = "aaffff"
  ∧ adjustColor "#5AC1ee" 0 = "#5ac1ee".
Proof.
  assert (writesByte "5" "A" 90) as Hr by (by exists 5, 10).
  assert (writesByte "C" "1" 193) as Hg by (by exists 12, 1).
  assert (writesByte "e" "e" 238) as Hb by (by exists 14, 14).
  split; [|split].
  - apply (proj1 (adjustColor_shifts_channels
                    "5" "A" "C" "1" "e" "e" 90 193 238 (-20) Hr Hg Hb)).
  - apply (proj1 (proj2 (adjustColor_shifts_channels
                    "5" "A" "C" "1" "e" "e" 90 193 238 80 Hr Hg Hb))).
  - apply (proj2 (proj2 (adjustColor_shifts_channels
                    "5" "A" "C" "1" "e" "e" 90 193 238 0 Hr Hg Hb))).
Defined.

End Colours.

(** ** Email addresses *)

Section Emails.
Import Regex EmailValidator.

Lemma dead_not_nullable (r : re) : dead r = true → nullable r = false.
Proof.
  induction r as [| |P|a IHa b IHb|a IHa b IHb|a IHa]; cbn; try done.
  - intros [Ha|Hb]%orb_true_iff.
    + by rewrite (IHa Ha).
    + rewrite (IHb Hb). apply andb_false_r.
  - intros [Ha Hb]%andb_true_iff. by rewrite (IHa Ha), (IHb Hb).
Qed.

Lemma dead_deriv (c : ascii) (r : re) :
  dead r = true → dead (deriv c r) = true.
Proof.
  induction r as [| |P|a IHa b IHb|a IHa b IHb|a IHa]; cbn; try done.
  - intros Hab. destruct (nullable a) eqn:Hn; cbn.
    + apply orb_true_iff in Hab as [Ha|Hb].
      * by rewrite (dead_not_nullable a Ha) in Hn.
      * rewrite Hb, (IHb Hb). by rewrite orb_true_r.
    + apply orb_true_iff in Hab as [Ha|Hb].
      * by rewrite (IHa Ha).
      * rewrite Hb. apply orb_true_r.
  - intros [Ha Hb]%andb_true_iff. by rewrite (IHa Ha), (IHb Hb).
Qed.

Lemma dead_matches (r : re) (s : string) :
  dead r = true → matches r s = false.
Proof.
  revert r. induction s as [|c s IH]; intros r Hr; cbn.
  - by apply dead_not_nullable.
  - by apply IH, dead_deriv.
Qed.

Lemma deriv_outside_alphabet (c : ascii) (r : re) :
  alphabet r c = false → dead (deriv c r) = true.
Proof.
  induction r as [| |P|a IHa b IHb|a IHa b IHb|a IHa]; cbn; try done.
  - by intros ->.
  - intros [Ha Hb]%orb_false_iff.
    destruct (nullable a); cbn; rewrite (IHa Ha); [|done].
    by rewrite (IHb Hb).
  - intros [Ha Hb]%orb_false_iff. by rewrite (IHa Ha), (IHb Hb).
  - intros Ha. by rewrite (IHa Ha).
Qed.

Lemma alphabet_deriv (c x : ascii) (r : re) :
  alphabet (deriv c r) x = true → alphabet r x = true.
Proof.
  induction r as [| |P|a IHa b IHb|a IHa b IHb|a IHa]; cbn; try done.
  - by destruct (P c).
  - destruct (nullable a); cbn; rewrite !orb_true_iff; intuition.
  - rewrite !orb_true_iff. intuition.
  - rewrite !orb_true_iff. intuition.
Qed.

Lemma string_all_impl (P Q : ascii → bool) (s : string) :
  (∀ c, P c = true → Q c = true) →
  string_all P s = true → string_all Q s = true.
Proof.
  intros HPQ. induction s as [|c s IH]; [done|]. cbn.
  intros [Hc Hs]%andb_true_iff. by rewrite (HPQ c Hc), (IH Hs).
Qed.

(** A string that matches is written in the alphabet of the expression. *)
Lemma matches_alphabet (r : re) (s : string) :
  matches r s = true → string_all (alphabet r) s = true.
Proof.
  revert r. induction s as [|c s IH]; intros r Hm; [done|].
  cbn in Hm. cbn. destruct (alphabet r c) eqn:Hc.
  - cbn. apply (string_all_impl (alphabet (deriv c r))); [|by apply IH].
    intros x. apply alphabet_deriv.
  - by rewrite (dead_matches _ s (deriv_outside_alphabet c r Hc)) in Hm.
Qed.

Lemma address_alphabet (c : ascii) :
  alphabet EMAIL_REGEX c = true → isAddressChar c = true.
Proof. by destruct c as [[] [] [] [] [] [] [] []]. Qed.

Lemma address_char_plain (c : ascii) :
  isAddressChar c = true →
  escapeChar c = String c "" ∧ isAddressChar (lower_char c) = true
  ∧ Ascii.is_space c = false ∧ notAngle c = true.
Proof. by destruct c as [[] [] [] [] [] [] [] []]. Qed.

Lemma escapeHtml_plain (s : string) :
  string_all isAddressChar s = true → escapeHtml s = s.
Proof.
  induction s as [|c s IH]; [done|]. cbn.
  intros [Hc Hs]%andb_true_iff.
  destruct (address_char_plain c Hc) as (-> & _). by rewrite IH.
Qed.

Lemma toLowerCase_address (s : string) :
  string_all isAddressChar s = true →
  string_all isAddressChar (toLowerCase s) = true.
Proof.
  induction s as [|c s IH]; [done|]. cbn.
  intros [Hc Hs]%andb_true_iff.
  destruct (address_char_plain c Hc) as (_ & -> & _). by rewrite IH.
Qed.

(** What [isValid] has checked when it answers yes. *)
Lemma isValid_checked (email : string) :
  isValid (VStr email) = true →
  matches EMAIL_REGEX (trim email) = true
  ∧ test DANGEROUS_CHARS (trim email) = false
  ∧ test SQL_INJECTION_PATTERNS (trim email) = false
  ∧ countChar "@" (trim email) = 1%nat
  ∧ includes ".." (trim email) = false
  ∧ (1 ≤ String.length (trim email) ≤ 254)%nat.
Proof.
  unfold isValid. cbv zeta.
  destruct (nonempty email); [|done]. cbn [negb].
  destruct (String.length (trim email) =? 0)%nat eqn:E0; [done|].
  destruct (test DANGEROUS_CHARS (trim email)); [done|].
  destruct (test SQL_INJECTION_PATTERNS (trim email)); [done|].
  destruct (matches EMAIL_REGEX (trim email)); [|done]. cbn [negb].
  destruct (countChar "@" (trim email) =? 1)%nat eqn:E1; [|done].
  cbn [negb]. destruct (_ || _); [done|].
  destruct (includes "." _); [|done]. cbn [negb].
  destruct (includes ".." (trim email)); [done|].
  destruct (254 <? String.length (trim email))%nat eqn:E2; [done|].
  intros _. apply Nat.eqb_neq in E0. apply Nat.eqb_eq in E1.
  apply Nat.ltb_ge in E2. repeat split; (done || lia).
Qed.

Lemma isValid_plain (text : string) :
  isValid (VStr text) = true →
  string_all isAddressChar (trim text) = true
  ∧ sanitize (VStr text) = toLowerCase (trim text)
  ∧ formatForDisplay (VStr text) = trim text.
Proof.
  intros Hvalid.
  destruct (isValid_checked text Hvalid) as (Hre & _).
  assert (string_all isAddressChar (trim text) = true) as Hplain.
  { apply (string_all_impl (alphabet EMAIL_REGEX)).
    - apply address_alphabet.
    - by apply matches_alphabet. }
  assert (nonempty text = true) as Hne.
  { unfold isValid in Hvalid. by destruct (nonempty text). }
  split; [done|]. split.
  - unfold sanitize. rewrite Hne. cbn [negb].
    apply escapeHtml_plain. by apply toLowerCase_address.
  - unfold formatForDisplay. rewrite Hne. cbn [negb].
    by apply escapeHtml_plain.
Qed.

(** X15. Only a string is a valid address, and an address [isValid] accepts
    is, once trimmed, written with letters, digits and the characters
    [. _ + - @] only, has exactly one [@], no two dots in a row and between
    1 and 254 characters. So escaping changes nothing in it: [sanitize]
    gives the trimmed address in lower case and [formatForDisplay] the
    trimmed address itself. *)
Theorem valid_address_is_plain (email : value) :
  isValid email = true →
  ∃ text,
    email = VStr text
    ∧ string_all isAddressChar (trim text) = true
    ∧ countChar "@" (trim text) = 1%nat
    ∧ includes ".." (trim text) = false
    ∧ (1 ≤ String.length (trim text) ≤ 254)%nat
    ∧ sanitize email = toLowerCase (trim text)
    ∧ formatForDisplay email = trim text.
Proof.
  intros Hvalid. destruct email as [| | | |text]; try done.
  exists text. split; [done|].
  destruct (isValid_checked text Hvalid) as (_ & _ & _ & Hat & Hdots & Hlen).
  destruct (isValid_plain text Hvalid) as (Hplain & Hs & Hd).
  repeat split; try done; lia.
Qed.

Lemma valid_address_is_plain_witness :
  ∃ text,
    VStr "  User.Name+tag@Example.co.uk " = VStr text
    ∧ string_all isAddressChar (trim text) = true
    ∧ countChar "@" (trim text) = 1%nat
    ∧ includes ".." (trim text) = false
    ∧ (1 ≤ String.length (trim text) ≤ 254)%nat
    ∧ sanitize (VStr "  User.Name+tag@Example.co.uk ")
      = toLowerCase (trim text)
    ∧ formatForDisplay (VStr "  User.Name+tag@Example.co.uk ") = trim text.
Proof.
  apply (valid_address_is_plain (VStr "  User.Name+tag@Example.co.uk ")).
  vm_compute. reflexivity.
Defined.

Lemma escapeChar_notAngle (c : ascii) :
  string_all notAngle (escapeChar c) = true.
Proof. by destruct c as [[] [] [] [] [] [] [] []]. Qed.

Lemma escapeHtml_notAngle (s : string) :
  string_all notAngle (escapeHtml s) = true.
Proof.
  induction s as [|c s IH]; [done|]. cbn [escapeHtml].
  by rewrite string_all_app, escapeChar_notAngle, IH.
Qed.

(** X16. Whatever it is given, the validator never returns an angle
    bracket: the sanitized text of [validate], of [sanitize] and of
    [formatForDisplay] holds neither [<] nor [>], also when the address is
    refused. *)
Theorem sanitized_has_no_markup (email : value) :
  string_all notAngle (sanitized (validate email)) = true
  ∧ string_all notAngle (sanitize email) = true
  ∧ string_all notAngle (formatForDisplay email) = true.
Proof.
  assert (string_all notAngle (sanitize email) = true) as Hs.
  { unfold sanitize. destruct email as [| | | |text]; try done.
    destruct (nonempty text); [|done]. apply escapeHtml_notAngle. }
  split; [|split; [exact Hs|]].
  - unfold validate. cbv zeta.
    repeat (match goal with |- context [if ?b then _ else _] =>
              destruct b end); done.
  - unfold formatForDisplay. destruct email as [| | | |text]; try done.
    destruct (nonempty text); [|done]. apply escapeHtml_notAngle.
Qed.

Lemma validate_valid (email : value) :
  valid (validate email) = true →
  isValid email = true ∧ sanitized (validate email) = sanitize email
  ∧ error (validate email) = None.
Proof.
  unfold validate. cbv zeta.
  destruct (negb (truthy email)); [done|].
  destruct (String.length (sanitize email) =? 0)%nat; [done|].
  destruct (test DANGEROUS_CHARS _); [done|].
  destruct (test SQL_INJECTION_PATTERNS _); [done|].
  by destruct (isValid email).
Qed.

(** X17. With the validator of the page in place, the email of a record
    the Google Sheets adapter normalizes is either empty or an address
    [isValid] accepts, in lower case: a text the validator refuses never
    reaches the roster, and what reaches it is written with letters,
    digits and [. _ + - @] only. *)
Theorem roster_emails_are_valid (row : list value) (index : nat) :
  ∃ address,
    email (GoogleSheetsDataSource.normalizeRow (Some forRows) row index)
    = VStr address
    ∧ string_all isAddressChar address = true
    ∧ (address = ""
       ∨ isValid (VStr (column row 4)) = true
         ∧ address = toLowerCase (trim (column row 4))).
Proof.
  unfold GoogleSheetsDataSource.normalizeRow. cbn [email].
  rewrite str_or_empty_r.
  unfold GoogleSheetsDataSource.validatedEmail, forRows.
  cbn -[validate isValid sanitize].
  destruct (nonempty (column row 4)); [|by exists ""; auto].
  destruct (valid (validate (VStr (column row 4)))) eqn:Hv;
    [|by exists ""; auto].
  destruct (validate_valid _ Hv) as (Hvalid & -> & _).
  destruct (isValid_plain _ Hvalid) as (Hplain & Hs & _).
  exists (sanitize (VStr (column row 4))). split; [done|].
  rewrite Hs. split; [by apply toLowerCase_address|]. by right.
Qed.

Lemma foldl_sortEmail (sorted : Sorted) (emails : list string) :
  foldl sortEmail sorted emails
  = mkSorted
      (validEmails sorted
       ++ ((λ e, sanitize (VStr e))
             <$> List.filter (λ e, isValid (VStr e)) emails))%list
      (invalidEmails sorted
       ++ ((λ e, mkRefused e (error (validate (VStr e))))
             <$> List.filter (λ e, negb (isValid (VStr e))) emails))%list.
Proof.
  revert sorted. induction emails as [|e emails IH]; intros sorted.
  { cbn. rewrite !app_nil_r. by destruct sorted. }
  cbn [foldl List.filter]. rewrite IH. unfold sortEmail.
  destruct (isValid (VStr e)); cbn [negb validEmails invalidEmails fmap list_fmap];
    by rewrite <- app_assoc.
Qed.

Lemma refused_has_reason (email : value) :
  isValid email = false → ∃ msg, error (validate email) = Some msg.
Proof.
  intros Hno. unfold validate. cbv zeta.
  destruct (negb (truthy email)); [by eexists|].
  destruct (String.length (sanitize email) =? 0)%nat; [by eexists|].
  destruct (test DANGEROUS_CHARS _); [by eexists|].
  destruct (test SQL_INJECTION_PATTERNS _); [by eexists|].
  rewrite Hno. by eexists.
Qed.

Lemma validateMultiple_text (text : string) (separator : ascii) :
  validateMultiple (VStr text) separator
  = mkSorted
      ((λ e, sanitize (VStr e))
         <$> List.filter (λ e, isValid (VStr e)) (emailList text separator))
      ((λ e, mkRefused e (error (validate (VStr e))))
         <$> List.filter (λ e, negb (isValid (VStr e)))
               (emailList text separator)).
Proof.
  unfold validateMultiple, nonempty. case_bool_decide as Hempty; cbn [negb].
  - by subst text.
  - by rewrite foldl_sortEmail.
Qed.

Lemma filter_split_length {A} (f : A → bool) (l : list A) :
  (length (List.filter f l) + length (List.filter (λ x, negb (f x)) l))%nat
  = length l.
Proof.
  induction l as [|x l IH]; [done|]. cbn. destruct (f x); cbn; lia.
Qed.

(** X18. [validateMultiple] sorts every non-blank entry of the text into
    exactly one of its two lists and keeps the order of the text: the valid
    list is the sanitized accepted entries, each written with letters,
    digits and [. _ + - @] only, and every refused entry is kept as typed,
    trimmed and not empty, together with a reason, which is never missing.
    Anything but a string gives two empty lists. *)
Theorem validateMultiple_sorts_every_entry
    (emails : value) (separator : ascii) :
  let sorted := validateMultiple emails separator in
  (∀ text, emails = VStr text →
     (length (validEmails sorted) + length (invalidEmails sorted))%nat
     = length (emailList text separator)
     ∧ validEmails sorted
       = (λ e, sanitize (VStr e))
           <$> List.filter (λ e, isValid (VStr e)) (emailList text separator)
     ∧ refusedEmail <$> invalidEmails sorted
       = List.filter (λ e, negb (isValid (VStr e)))
           (emailList text separator))
  ∧ ((∀ text, emails ≠ VStr text) → sorted = mkSorted [] [])
  ∧ Forall (λ e, string_all isAddressChar e = true ∧ e ≠ "")
      (validEmails sorted)
  ∧ Forall (λ r, refusedEmail r ≠ ""
                 ∧ isValid (VStr (refusedEmail r)) = false
                 ∧ ∃ msg, reason r = Some msg)
      (invalidEmails sorted).
Proof.
  cbv zeta. destruct emails as [| | | |text];
    try (by repeat split; try constructor).
  rewrite validateMultiple_text. cbn [validEmails invalidEmails].
  split; [|split; [by intros H; destruct (H text)|split]].
  - intros ? [= <-]. split; [|split; [done|]].
    + rewrite !length_fmap. apply filter_split_length.
    + rewrite <- list_fmap_compose. apply list_fmap_id.
  - apply Forall_fmap, Forall_forall. intros e [_ Hvalid]%list_elem_of_In%filter_In.
    destruct (isValid_checked e Hvalid) as (_ & _ & _ & _ & _ & Hlen).
    destruct (isValid_plain e Hvalid) as (Hplain & Hs & _).
    unfold compose. rewrite Hs.
    split; [by apply toLowerCase_address|].
    destruct (trim e); [cbn in Hlen; lia|done].
  - apply Forall_fmap, Forall_forall. intros e [Hin Hno]%list_elem_of_In%filter_In.
    apply negb_true_iff in Hno. unfold compose. cbn [refusedEmail reason].
    split; [|split; [done|by apply refused_has_reason]].
    apply filter_In in Hin as [_ Hlen]. by destruct e.
Qed.

End Emails.
